(** * Verification of [regd_testing::rand] (src/rand.rs)

    A shallow embedding of the random value generators of the test-support
    crate, together with the parts of the [rand] 0.9 crate and of [std::fs]
    they delegate to:
    - the thread-local generator [rand::rng()] is an infinite stream of
      32-bit output words with a read position, shared by every handle of
      the thread, so consecutive calls continue the same stream;
    - [std::fs::metadata] is a lookup in the entries of the current working
      directory that follows symbolic links;
    - a Rust [String] is the list of its UTF-8 bytes;
    - panics and non-termination are explicit outcomes of a small state
      monad; unbounded loops take a fuel argument, and running out of fuel
      stands for a loop that has not returned yet. *)

From Stdlib Require Import ZArith List Lia Bool String Ascii.
From Stdlib Require Import Floats.SpecFloat.
Import ListNotations.

Open Scope Z_scope.

(** ** Results and the current working directory *)

(** Rust's [Result<T, E>]. *)
Inductive result (T E : Type) : Type :=
| Ok (v : T)
| Err (e : E).
Arguments Ok {T E} v.
Arguments Err {T E} e.

Definition is_err {T E} (r : result T E) : bool :=
  match r with Ok _ => false | Err _ => true end.

(** A path in the current working directory: the bytes of its name. *)
Definition path := list Z.

(** A directory entry; a symbolic link stores the path it points to. *)
Inductive entry : Type :=
| File
| Dir
| Symlink (target : path).

Inductive io_error : Type :=
| NotFound           (* ENOENT *)
| FilesystemLoop     (* ELOOP *)
| PermissionDenied   (* EACCES *)
| NameTooLong.       (* ENAMETOOLONG *)

(** Filesystem operations of [std::fs] a call may perform. *)
Inductive fs_op : Type :=
| OpMetadata (p : path)
| OpCreate (p : path)
| OpReadContents (p : path)
| OpRemove (p : path)
| OpLock (p : path).

Definition path_eqb (p q : path) : bool :=
  if list_eq_dec Z.eq_dec p q then true else false.

Fixpoint dir_lookup (d : list (path * entry)) (p : path) : option entry :=
  match d with
  | [] => None
  | (n, e) :: d' => if path_eqb n p then Some e else dir_lookup d' p
  end.

(** Linux follows at most 40 symbolic links before failing with ELOOP. *)
Definition MAXSYMLINKS : nat := 40.

(** Linux file systems refuse names of more than 255 bytes. *)
Definition NAME_MAX : nat := 255.

(** [stat(2)] in a directory the process may search: resolve [p],
    following symbolic links. *)
Fixpoint stat_follow (hops : nat) (d : list (path * entry)) (p : path)
  : result entry io_error :=
  if Nat.ltb NAME_MAX (List.length p) then Err NameTooLong else
  match dir_lookup d p with
  | None => Err NotFound
  | Some (Symlink t) =>
      match hops with
      | O => Err FilesystemLoop
      | S h => stat_follow h d t
      end
  | Some e => Ok e
  end.

(** ** The world and the monad *)

Record World : Type := mkWorld {
  cwd : list (path * entry);   (* entries of the current working directory *)
  rng_words : nat -> Z;        (* output stream of the thread-local generator *)
  rng_pos : nat;               (* words of the stream consumed so far *)
  fs_log : list fs_op;         (* filesystem operations, most recent first *)
  cwd_search : bool            (* the process may search the working directory *)
}.

Definition advance_rng (w : World) : World :=
  mkWorld (cwd w) (rng_words w) (S (rng_pos w)) (fs_log w) (cwd_search w).

Definition log_op (o : fs_op) (w : World) : World :=
  mkWorld (cwd w) (rng_words w) (rng_pos w) (o :: fs_log w) (cwd_search w).

Inductive outcome (A : Type) : Type :=
| Done (a : A) (w : World)
| Panic (msg : string) (w : World)
| OutOfFuel.
Arguments Done {A} a w.
Arguments Panic {A} msg w.
Arguments OutOfFuel {A}.

Definition M (A : Type) : Type := World -> outcome A.

Definition ret {A} (a : A) : M A := fun w => Done a w.

Definition bind {A B} (m : M A) (k : A -> M B) : M B :=
  fun w =>
    match m w with
    | Done a w' => k a w'
    | Panic msg w' => Panic msg w'
    | OutOfFuel => OutOfFuel
    end.

Definition panic {A} (msg : string) : M A := fun w => Panic msg w.

Definition out_of_fuel {A} : M A := fun _ => OutOfFuel.

Notation "x <- m ;; k" := (bind m (fun x => k))
  (at level 61, m at next level, right associativity).

(** ** The thread-local generator ([rand::rngs::ThreadRng]) *)

Definition next_u32 : M Z :=
  fun w => Done (rng_words w (rng_pos w) mod 2 ^ 32) (advance_rng w).

(** [StandardUniform] for [u8]: [rng.next_u32() as u8]. *)
Definition random_u8 : M Z :=
  x <- next_u32 ;;
  ret (Z.land x 255).

(** ** [generate_bytes] *)

(** [(0..length).map(|_| rng.random::<u8>()).collect()] *)
Fixpoint collect_random_u8 (n : nat) : M (list Z) :=
  match n with
  | O => ret []
  | S k =>
      b <- random_u8 ;;
      bs <- collect_random_u8 k ;;
      ret (b :: bs)
  end.

Definition generate_bytes (length : nat) : M (list Z) :=
  collect_random_u8 length.

(** ** [rand::distr::Alphanumeric] *)

Definition bytes_of_string (s : string) : list Z :=
  map (fun c => Z.of_nat (nat_of_ascii c)) (list_ascii_of_string s).

Definition GEN_ASCII_STR_CHARSET : list Z :=
  bytes_of_string
    "ABCDEFGHIJKLMNOPQRSTUVWXYZabcdefghijklmnopqrstuvwxyz0123456789".

(** [Distribution<u8> for Alphanumeric]: take the 6 high bits of a word and
    reject the values 62 and 63. *)
Fixpoint alphanumeric_sample (fuel : nat) : M Z :=
  match fuel with
  | O => out_of_fuel
  | S f =>
      x <- next_u32 ;;
      let var := Z.shiftr x (32 - 6) in
      if var <? 26 + 26 + 10
      then ret (nth (Z.to_nat var) GEN_ASCII_STR_CHARSET 0)
      else alphanumeric_sample f
  end.

(** ** Rust strings *)

(** UTF-8 encoding of a Unicode scalar value. *)
Definition utf8_encode (c : Z) : list Z :=
  if c <? 128 then [c]
  else if c <? 2048 then
    [Z.lor 192 (Z.shiftr c 6); Z.lor 128 (Z.land c 63)]
  else if c <? 65536 then
    [Z.lor 224 (Z.shiftr c 12); Z.lor 128 (Z.land (Z.shiftr c 6) 63);
     Z.lor 128 (Z.land c 63)]
  else
    [Z.lor 240 (Z.shiftr c 18); Z.lor 128 (Z.land (Z.shiftr c 12) 63);
     Z.lor 128 (Z.land (Z.shiftr c 6) 63); Z.lor 128 (Z.land c 63)].

(** [char::from(u8)]: the scalar value with the byte's number. *)
Definition char_from_u8 (b : Z) : Z := b.

(** [String::push] *)
Definition push_char (s : list Z) (c : Z) : list Z := s ++ utf8_encode c.

(** [str::len]: the number of bytes. *)
Definition str_len (s : list Z) : nat := List.length s.

(** [str::chars().count()]: the bytes that start a scalar value, i.e. that
    are not continuation bytes [10xxxxxx]. *)
Definition chars_count (s : list Z) : nat :=
  List.length (filter (fun b => negb (Z.land b 192 =? 128)) s).

Definition is_ascii_alphanumeric (b : Z) : bool :=
  ((65 <=? b) && (b <=? 90)) || ((97 <=? b) && (b <=? 122))
  || ((48 <=? b) && (b <=? 57)).

(** ** [generate_alphanumeric] *)

(** [rng.sample_iter(&Alphanumeric).take(n).map(char::from)], collected
    into the string [s]. *)
Fixpoint collect_alphanumeric (fuel : nat) (n : nat) (s : list Z)
  : M (list Z) :=
  match n with
  | O => ret s
  | S k =>
      b <- alphanumeric_sample fuel ;;
      collect_alphanumeric fuel k (push_char s (char_from_u8 b))
  end.

Definition generate_alphanumeric (fuel : nat) (length : nat) : M (list Z) :=
  collect_alphanumeric fuel length [].

(** ** [generate_badfile] *)

(** [stat(2)] of a name relative to the working directory: looking a name
    up needs search permission on the directory. *)
Definition fs_stat (w : World) (p : path) : result entry io_error :=
  if cwd_search w then stat_follow MAXSYMLINKS (cwd w) p
  else Err PermissionDenied.

(** [std::fs::metadata]: follows symbolic links. *)
Definition fs_metadata (p : path) : M (result entry io_error) :=
  fun w => Done (fs_stat w p) (log_op (OpMetadata p) w).

(** The [loop] of [generate_badfile]; the candidate is built by the same
    iterator chain as in [generate_alphanumeric], inlined in the source. *)
Fixpoint badfile_loop (fuel : nat) (length : nat) : M (list Z) :=
  match fuel with
  | O => out_of_fuel
  | S f =>
      filename <- collect_alphanumeric fuel length [] ;;
      md <- fs_metadata filename ;;
      if is_err md then ret filename else badfile_loop f length
  end.

Definition generate_badfile (fuel : nat) (length : nat) : M (list Z) :=
  if negb (Nat.ltb 0 length) then panic "cannot sample empty file name"
  else badfile_loop fuel length.

(** ** [generate_range] and [rand::distr::uniform] *)

(** [rand::distr::uniform::Error] *)
Inductive rand_error : Type :=
| EmptyRange
| NonFinite.

(** The two range forms accepted through [SampleRange]: [a..b] and
    [a..=b]. *)
Inductive range (T : Type) : Type :=
| Range (start end_ : T)
| RangeInclusive (start end_ : T).
Arguments Range {T} start end_.
Arguments RangeInclusive {T} start end_.

(** [SampleUniform]: the comparison of [PartialOrd] used by [is_empty] and
    the single-sample methods of the type's [UniformSampler]. *)
Record SampleUniform (T : Type) : Type := {
  su_lt : T -> T -> bool;
  su_le : T -> T -> bool;
  sample_single : T -> T -> M (result T rand_error);
  sample_single_inclusive : T -> T -> M (result T rand_error)
}.
Arguments su_lt {T} s _ _.
Arguments su_le {T} s _ _.
Arguments sample_single {T} s _ _ _.
Arguments sample_single_inclusive {T} s _ _ _.

(** [SampleRange::is_empty]: [!(start < end)] for [a..b],
    [!(start <= end)] for [a..=b]. *)
Definition is_empty {T} (U : SampleUniform T) (r : range T) : bool :=
  match r with
  | Range a b => negb (su_lt U a b)
  | RangeInclusive a b => negb (su_le U a b)
  end.

(** [SampleRange::sample_single] *)
Definition range_sample_single {T} (U : SampleUniform T) (r : range T)
  : M (result T rand_error) :=
  match r with
  | Range a b => sample_single U a b
  | RangeInclusive a b => sample_single_inclusive U a b
  end.

Definition unwrap_failed : string :=
  "called `Result::unwrap()` on an `Err` value".

(** [Rng::random_range]:
    [assert!(!range.is_empty(), ...); range.sample_single(self).unwrap()] *)
Definition random_range {T} (U : SampleUniform T) (r : range T) : M T :=
  if negb (negb (is_empty U r)) then panic "cannot sample empty range"
  else
    res <- range_sample_single U r ;;
    match res with
    | Ok v => ret v
    | Err _ => panic unwrap_failed
    end.

(** [generate_range] *)
Definition generate_range {T} (U : SampleUniform T) (r : range T) : M T :=
  if negb (negb (is_empty U r)) then panic "cannot sample empty range"
  else random_range U r.

(** *** Integers *)

(** A fixed-width integer type [$ty] with the width of the unsigned type
    [$sample_ty] its sampler computes in ([u32] for the types of at most 32
    bits, the type's own width above). *)
Record IntTy : Type := {
  signed : bool;
  bits : Z;
  sample_bits : Z
}.

Definition i8 : IntTy := {| signed := true; bits := 8; sample_bits := 32 |}.
Definition i16 : IntTy := {| signed := true; bits := 16; sample_bits := 32 |}.
Definition i32 : IntTy := {| signed := true; bits := 32; sample_bits := 32 |}.
Definition i64 : IntTy := {| signed := true; bits := 64; sample_bits := 64 |}.
Definition i128 : IntTy := {| signed := true; bits := 128; sample_bits := 128 |}.
Definition u8 : IntTy := {| signed := false; bits := 8; sample_bits := 32 |}.
Definition u16 : IntTy := {| signed := false; bits := 16; sample_bits := 32 |}.
Definition u32 : IntTy := {| signed := false; bits := 32; sample_bits := 32 |}.
Definition u64 : IntTy := {| signed := false; bits := 64; sample_bits := 64 |}.
Definition u128 : IntTy := {| signed := false; bits := 128; sample_bits := 128 |}.

Definition int_wf (t : IntTy) : Prop :=
  1 <= bits t <= sample_bits t /\ 0 < sample_bits t /\ sample_bits t mod 32 = 0.

Definition int_min (t : IntTy) : Z :=
  if signed t then - 2 ^ (bits t - 1) else 0.

Definition int_max (t : IntTy) : Z :=
  if signed t then 2 ^ (bits t - 1) - 1 else 2 ^ bits t - 1.

Definition in_int (t : IntTy) (v : Z) : Prop := int_min t <= v <= int_max t.

(** Two's complement reinterpretation of the low [bits t] bits: the value
    of an [as $ty] cast and of the [wrapping_*] operations. *)
Definition wrap (t : IntTy) (z : Z) : Z :=
  let u := z mod 2 ^ bits t in
  if signed t && (2 ^ (bits t - 1) <=? u) then u - 2 ^ bits t else u.

(** [k] words of the generator, the first one lowest: [next_u32],
    [next_u64] ([BlockRng] reads two consecutive words, the first one low)
    and the [u128] made of two [next_u64]. *)
Fixpoint next_words (k : nat) : M Z :=
  match k with
  | O => ret 0
  | S k' =>
      lo <- next_u32 ;;
      hi <- next_words k' ;;
      ret (Z.lor lo (Z.shiftl hi 32))
  end.

(** [rng.random::<$sample_ty>()] *)
Definition random_sample_ty (t : IntTy) : M Z :=
  next_words (Z.to_nat (sample_bits t / 32)).

(** [rng.random::<$ty>()]: types of at most 32 bits truncate [next_u32]. *)
Definition random_int (t : IntTy) : M Z :=
  x <- next_words (Z.to_nat (Z.max 1 (bits t / 32))) ;;
  ret (wrap t x).

(** [UniformInt::sample_single_inclusive] (Canon's method). *)
Definition int_sample_single_inclusive (t : IntTy) (low high : Z)
  : M (result Z rand_error) :=
  if negb (low <=? high) then ret (Err EmptyRange)
  else
    let S := 2 ^ sample_bits t in
    let range := wrap t (wrap t (high - low) + 1) mod 2 ^ bits t in
    if range =? 0 then
      v <- random_int t ;;
      ret (Ok v)
    else
      x <- random_sample_ty t ;;
      let result := (x * range) / S in
      let lo_order := (x * range) mod S in
      if (S - range) mod S <? lo_order then
        y <- random_sample_ty t ;;
        let new_hi_order := (y * range) / S in
        let is_overflow := S <=? lo_order + new_hi_order in
        ret (Ok (wrap t (low + wrap t (result + Z.b2z is_overflow))))
      else ret (Ok (wrap t (low + wrap t result))).

(** [UniformInt::sample_single]: [a..b] is sampled as [a..=b-1]. *)
Definition int_sample_single (t : IntTy) (low high : Z)
  : M (result Z rand_error) :=
  if negb (low <? high) then ret (Err EmptyRange)
  else int_sample_single_inclusive t low (high - 1).

Definition int_sampler (t : IntTy) : SampleUniform Z := {|
  su_lt := Z.ltb;
  su_le := Z.leb;
  sample_single := int_sample_single t;
  sample_single_inclusive := int_sample_single_inclusive t
|}.

(** *** [f64] *)

Definition f64_add := SFadd 53 1024.
Definition f64_sub := SFsub 53 1024.
Definition f64_mul := SFmul 53 1024.
Definition f64_lt := SFltb.
Definition f64_le := SFleb.

Definition f64_is_finite (x : spec_float) : bool :=
  match x with
  | S754_zero _ | S754_finite _ _ _ => true
  | S754_infinity _ | S754_nan => false
  end.

(** [f64::from_bits] *)
Definition f64_from_bits (b : Z) : spec_float :=
  let s := Z.testbit b 63 in
  let e := Z.land (Z.shiftr b 52) 2047 in
  let m := Z.land b (2 ^ 52 - 1) in
  if e =? 2047 then (if m =? 0 then S754_infinity s else S754_nan)
  else if e =? 0 then
    (if m =? 0 then S754_zero s else S754_finite s (Z.to_pos m) (-1074))
  else S754_finite s (Z.to_pos (2 ^ 52 + m)) (e - 1075).

Definition f64_ONE : spec_float := f64_from_bits 4607182418800017408.
Definition f64_MAX : spec_float := f64_from_bits 9218868437227405311.
Definition f64_MIN : spec_float := f64_from_bits 18442240474082181119.
Definition f64_INFINITY : spec_float := f64_from_bits 9218868437227405312.

(** [IntoFloat::into_float_with_exponent(0)] for [u64]. *)
Definition into_float_with_exponent_0 (m : Z) : spec_float :=
  f64_from_bits (Z.lor m (Z.shiftl 1023 52)).

(** [UniformFloat::sample_single_inclusive] for [f64]; [debug] says whether
    the crate is built with [debug_assertions]. *)
Definition f64_sample_single_inclusive (debug : bool) (low high : spec_float)
  : M (result spec_float rand_error) :=
  if debug && negb (f64_is_finite low && f64_is_finite high)
  then ret (Err NonFinite)
  else if negb (f64_le low high) then ret (Err EmptyRange)
  else
    let scale := f64_sub high low in
    if negb (f64_is_finite scale) then ret (Err NonFinite)
    else
      u <- next_words 2 ;;
      let value1_2 := into_float_with_exponent_0 (Z.shiftr u (64 - 52)) in
      let value0_1 := f64_sub value1_2 f64_ONE in
      ret (Ok (f64_add (f64_mul value0_1 scale) low)).

(** [UniformFloat::sample_single] delegates to the inclusive method. *)
Definition f64_sampler (debug : bool) : SampleUniform spec_float := {|
  su_lt := f64_lt;
  su_le := f64_le;
  sample_single := f64_sample_single_inclusive debug;
  sample_single_inclusive := f64_sample_single_inclusive debug
|}.

(** ** [generate] *)

(** [Distribution<T> for StandardUniform]: a sample of the whole domain of
    [T]. *)
Record StandardUniform (T : Type) : Type := {
  standard_sample : M T
}.
Arguments standard_sample {T} s _.

(** [generate]: [let mut rng = rand::rng(); rng.random::<T>()] *)
Definition generate {T} (D : StandardUniform T) : M T := standard_sample D.

(** [StandardUniform] for the integer types. *)
Definition int_standard (t : IntTy) : StandardUniform Z := {|
  standard_sample := random_int t
|}.

Definition range_start {T} (r : range T) : T :=
  match r with Range a _ | RangeInclusive a _ => a end.

Definition range_end {T} (r : range T) : T :=
  match r with Range _ b | RangeInclusive _ b => b end.

(** The [NonFinite] checks of [f64_sample_single_inclusive]. *)
Definition f64_rejects (debug : bool) (low high : spec_float) : bool :=
  (debug && negb (f64_is_finite low && f64_is_finite high))
  || negb (f64_is_finite (f64_sub high low)).

(** [1.0_f64.next_up()], i.e. [1 + 2^-52]. *)
Definition f64_ONE_NEXT : spec_float := f64_from_bits 4607182418800017409.

Definition f64_TWO : spec_float := f64_from_bits 4611686018427387904.

(** An empty directory with a generator whose words are all [0], or all
    [u32::MAX]. *)
Definition zero_world : World := mkWorld [] (fun _ => 0) 0 [] true.

Definition ones_world : World := mkWorld [] (fun _ => 2 ^ 32 - 1) 0 [] true.

(** ** Auxiliary definitions of the statements *)

(** Only the generator's position changes. *)
Definition same_env (w w' : World) : Prop :=
  cwd w' = cwd w /\ rng_words w' = rng_words w /\ fs_log w' = fs_log w /\
  cwd_search w' = cwd_search w.

Definition metadata_fails (w : World) (p : path) : bool :=
  is_err (fs_stat w p).

(** A working directory holding a dangling symbolic link [A -> B], with a
    generator whose every word is 0, so that every candidate is ["A"]. *)
Definition dangling_world : World :=
  mkWorld [([65], Symlink [66])] (fun _ => 0) 0 [] true.

(** A working directory holding the regular file [A] that the process may
    not search, with a generator whose every word is 0. *)
Definition unsearchable_world : World :=
  mkWorld [([65], File)] (fun _ => 0) 0 [] false.

(** The generator eventually yields a candidate on which [fs::metadata]
    fails: each candidate is drawn within [fuel] words per character, and
    after finitely many taken candidates, one is free. *)
Inductive eventually_free (fuel len : nat) : World -> Prop :=
| ef_free : forall w c w1,
    collect_alphanumeric fuel len [] w = Done c w1 ->
    metadata_fails w1 c = true ->
    eventually_free fuel len w
| ef_taken : forall w c w1,
    collect_alphanumeric fuel len [] w = Done c w1 ->
    metadata_fails w1 c = false ->
    eventually_free fuel len (log_op (OpMetadata c) w1) ->
    eventually_free fuel len w.

(** A directory holding the file ["A"] and a generator whose first [N]
    words give the candidate ["A"] and whose later words give ["B"]. *)
Definition collide_words (N : nat) : nat -> Z :=
  fun n => if Nat.ltb n N then 0 else 2 ^ 26.

Definition collide_world (N : nat) : World :=
  mkWorld [([65], File)] (collide_words N) 0 [] true.

(** The integer types of Rust with a fixed width. *)
Definition rust_int_types : list IntTy :=
  [i8; i16; i32; i64; i128; u8; u16; u32; u64; u128].

(** The words of the generator at positions [p], ..., [p + n - 1]. *)
Definition stream_window (w : World) (p n : nat) : list Z :=
  map (fun i => rng_words w i mod 2 ^ 32) (seq p n).

(** The acceptance test and the symbol of a word in [alphanumeric_sample]. *)
Definition alnum_accepts (x : Z) : bool := Z.shiftr x (32 - 6) <? 26 + 26 + 10.

Definition alnum_char (x : Z) : Z :=
  nth (Z.to_nat (Z.shiftr x (32 - 6))) GEN_ASCII_STR_CHARSET 0.

(** ** Proofs: the string generators *)

Lemma same_env_refl : forall w, same_env w w.
Proof. intros w; repeat split. Qed.

Lemma same_env_trans : forall w1 w2 w3,
  same_env w1 w2 -> same_env w2 w3 -> same_env w1 w3.
Proof.
  intros w1 w2 w3 (H1 & H2 & H3 & H4) (H5 & H6 & H7 & H8).
  repeat split; congruence.
Qed.

Lemma same_env_advance : forall w, same_env w (advance_rng w).
Proof. intros w; repeat split. Qed.

Create HintDb rand.
Lemma Done_inj : forall {A} (a b : A) w w',
  Done a w = Done b w' -> a = b /\ w = w'.
Proof. intros A a b w w' H; inversion H; auto. Qed.

#[local] Hint Resolve same_env_refl same_env_advance : rand.

Lemma charset_alphanumeric :
  Forall (fun b => is_ascii_alphanumeric b = true) GEN_ASCII_STR_CHARSET.
Proof. vm_compute. repeat constructor. Qed.

Lemma charset_length : List.length GEN_ASCII_STR_CHARSET = 62%nat.
Proof. reflexivity. Qed.

Lemma alphanumeric_sample_spec : forall f w b w',
  alphanumeric_sample f w = Done b w' ->
  is_ascii_alphanumeric b = true /\ same_env w w'.
Proof.
  induction f as [|f IH]; intros w b w' H; [discriminate|].
  cbn [alphanumeric_sample] in H; unfold bind, next_u32 in H.
  cbv beta zeta in H.
  set (x := rng_words w (rng_pos w) mod 2 ^ 32) in H.
  destruct (Z.shiftr x (32 - 6) <? 26 + 26 + 10) eqn:E.
  - unfold ret in H; apply Done_inj in H; destruct H as [<- <-].
    split; [|apply same_env_advance].
    apply Z.ltb_lt in E.
    assert (0 <= Z.shiftr x (32 - 6)).
    { apply Z.shiftr_nonneg; unfold x; apply Z.mod_pos_bound; lia. }
    pose proof charset_alphanumeric as Hc; rewrite Forall_forall in Hc.
    apply Hc, nth_In; rewrite charset_length; lia.
  - destruct (IH _ _ _ H) as [Hb Henv]; split; [exact Hb|].
    eapply same_env_trans; [apply same_env_advance|exact Henv].
Qed.

Lemma alphanumeric_sample_no_panic : forall f w msg w',
  alphanumeric_sample f w <> Panic msg w'.
Proof.
  induction f as [|f IH]; intros w msg w' H; [discriminate|].
  cbn [alphanumeric_sample] in H; unfold bind, next_u32 in H.
  cbv beta zeta in H.
  destruct (_ <? _); [discriminate|eapply IH; exact H].
Qed.

Lemma alphanumeric_byte_ascii : forall b,
  is_ascii_alphanumeric b = true -> 0 <= b < 128.
Proof.
  intros b H; unfold is_ascii_alphanumeric in H.
  repeat rewrite orb_true_iff in H; repeat rewrite andb_true_iff in H;
    repeat rewrite Z.leb_le in H; lia.
Qed.

Lemma utf8_encode_ascii : forall c, 0 <= c < 128 -> utf8_encode c = [c].
Proof.
  intros c Hc; unfold utf8_encode.
  destruct (c <? 128) eqn:E; [reflexivity|apply Z.ltb_ge in E; lia].
Qed.

Lemma collect_alphanumeric_spec : forall fuel n s w r w',
  collect_alphanumeric fuel n s w = Done r w' ->
  exists bs, r = s ++ bs /\ List.length bs = n /\
    Forall (fun b => is_ascii_alphanumeric b = true) bs /\ same_env w w'.
Proof.
  intros fuel; induction n as [|n IH]; intros s w r w' H.
  - cbn in H; unfold ret in H; apply Done_inj in H; destruct H as [<- <-].
    exists []; rewrite app_nil_r; auto with rand.
  - cbn [collect_alphanumeric] in H; unfold bind in H.
    destruct (alphanumeric_sample fuel w) as [b w1| |] eqn:Hs;
      try discriminate.
    destruct (alphanumeric_sample_spec _ _ _ _ Hs) as [Hb Henv1].
    destruct (IH _ _ _ _ H) as (bs & Hr & Hlen & Hall & Henv2).
    exists (b :: bs); repeat split.
    + rewrite Hr; unfold push_char, char_from_u8.
      rewrite utf8_encode_ascii by (apply alphanumeric_byte_ascii; exact Hb).
      rewrite <- app_assoc; reflexivity.
    + cbn; rewrite Hlen; reflexivity.
    + constructor; assumption.
    + eapply same_env_trans; eassumption.
    + eapply same_env_trans; eassumption.
    + eapply same_env_trans; eassumption.
    + eapply same_env_trans; eassumption.
Qed.

Lemma collect_alphanumeric_no_panic : forall fuel n s w msg w',
  collect_alphanumeric fuel n s w <> Panic msg w'.
Proof.
  intros fuel; induction n as [|n IH]; intros s w msg w' H; [discriminate|].
  cbn [collect_alphanumeric] in H; unfold bind in H.
  destruct (alphanumeric_sample fuel w) as [b w1|m w1|] eqn:Hs;
    try discriminate.
  - eapply IH; exact H.
  - injection H as <- <-; eapply alphanumeric_sample_no_panic; exact Hs.
Qed.

Lemma ascii_not_continuation : forall b,
  0 <= b < 128 -> (Z.land b 192 =? 128) = false.
Proof.
  intros b Hb; apply Z.eqb_neq; intros Heq.
  assert (Hbit : Z.testbit (Z.land b 192) 7 = Z.testbit 128 7)
    by (rewrite Heq; reflexivity).
  rewrite Z.land_spec in Hbit.
  assert (Hb7 : Z.testbit b 7 = false).
  { apply Bool.not_true_iff_false; intros Ht.
    pose proof (Z.testbit_spec' b 7 ltac:(lia)) as Hs.
    rewrite Ht, Z.div_small in Hs by (cbn; lia).
    discriminate Hs. }
  rewrite Hb7 in Hbit; discriminate Hbit.
Qed.

Lemma chars_count_ascii : forall s,
  Forall (fun b => 0 <= b < 128) s -> chars_count s = List.length s.
Proof.
  unfold chars_count; induction s as [|b s IH]; intros Hs; [reflexivity|].
  inversion Hs as [|? ? Hb Hs']; subst.
  cbn; rewrite ascii_not_continuation by exact Hb; cbn.
  rewrite IH by exact Hs'; reflexivity.
Qed.

Lemma alphanumeric_bytes_ascii : forall bs,
  Forall (fun b => is_ascii_alphanumeric b = true) bs ->
  Forall (fun b => 0 <= b < 128) bs.
Proof.
  intros bs H; eapply Forall_impl; [|exact H].
  intros b; apply alphanumeric_byte_ascii.
Qed.

(** A collected alphanumeric string: [n] ASCII alphanumeric bytes, one
    byte per character. *)
Lemma collect_alphanumeric_string : forall fuel n w r w',
  collect_alphanumeric fuel n [] w = Done r w' ->
  Forall (fun b => is_ascii_alphanumeric b = true) r /\
  Forall (fun b => 0 <= b < 128) r /\
  chars_count r = n /\ str_len r = n /\ same_env w w'.
Proof.
  intros fuel n w r w' H.
  destruct (collect_alphanumeric_spec _ _ _ _ _ _ H)
    as (bs & -> & Hlen & Hall & Henv).
  cbn [app]; pose proof (alphanumeric_bytes_ascii _ Hall) as Hasc.
  refine (conj Hall (conj Hasc (conj _ (conj Hlen Henv)))).
  rewrite chars_count_ascii by exact Hasc; exact Hlen.
Qed.

(** ** Proofs: the [generate_badfile] loop *)

Lemma badfile_loop_spec : forall fuel len w s w',
  badfile_loop fuel len w = Done s w' ->
  Forall (fun b => is_ascii_alphanumeric b = true) s /\
  Forall (fun b => 0 <= b < 128) s /\
  chars_count s = len /\ str_len s = len /\
  metadata_fails w' s = true /\
  cwd w' = cwd w /\ rng_words w' = rng_words w /\
  exists rejected,
    fs_log w' = OpMetadata s :: map OpMetadata rejected ++ fs_log w /\
    Forall (fun c => metadata_fails w c = false) rejected.
Proof.
  induction fuel as [|f IH]; intros len w s w' H; [discriminate|].
  cbn [badfile_loop] in H; unfold bind in H.
  destruct (collect_alphanumeric (S f) len [] w) as [c w1| |] eqn:Hc;
    try discriminate.
  destruct (collect_alphanumeric_string _ _ _ _ _ Hc)
    as (Halnum & Hasc & Hchars & Hlen & Hc1 & Hw1 & Hl1 & Hs1).
  unfold fs_metadata in H.
  destruct (is_err (fs_stat w1 c)) eqn:Herr.
  - unfold ret in H; apply Done_inj in H; destruct H as [<- <-].
    repeat split; try assumption.
    exists []; cbn; rewrite Hl1; split; [reflexivity|constructor].
  - destruct (IH _ _ _ _ H)
      as (Halnum' & Hasc' & Hchars' & Hlen' & Hfail' & Hc2 & Hw2 & rej & Hl2 & Hrej).
    cbn in Hc2, Hw2, Hl2.
    repeat split; try assumption; try congruence.
    exists (rej ++ [c]); split.
    + rewrite Hl2, map_app, <- app_assoc, Hl1; reflexivity.
    + apply Forall_app; split.
      * eapply Forall_impl; [|exact Hrej].
        intros p; unfold metadata_fails, fs_stat; cbn; rewrite Hc1, Hs1; auto.
      * constructor; [|constructor].
        unfold metadata_fails, fs_stat in *; rewrite <- Hc1, <- Hs1; exact Herr.
Qed.

Lemma badfile_loop_no_panic : forall fuel len w msg w',
  badfile_loop fuel len w <> Panic msg w'.
Proof.
  induction fuel as [|f IH]; intros len w msg w' H; [discriminate|].
  cbn [badfile_loop] in H; unfold bind in H.
  destruct (collect_alphanumeric (S f) len [] w) as [c w1|m w1|] eqn:Hc;
    try discriminate.
  - unfold fs_metadata in H.
    destruct (is_err _); [discriminate|eapply IH; exact H].
  - injection H as <- <-; eapply collect_alphanumeric_no_panic; exact Hc.
Qed.

Lemma collect_random_u8_spec : forall n w,
  exists bs w', collect_random_u8 n w = Done bs w' /\ List.length bs = n.
Proof.
  induction n as [|n IH]; intros w.
  - exists [], w; split; reflexivity.
  - destruct (IH (advance_rng w)) as (bs & w' & Hrun & Hlen).
    exists (Z.land (rng_words w (rng_pos w) mod 2 ^ 32) 255 :: bs), w'.
    cbn [collect_random_u8]; unfold bind, random_u8, bind, next_u32, ret.
    cbv beta; rewrite Hrun; split; [reflexivity|cbn; rewrite Hlen; reflexivity].
Qed.

Lemma metadata_fails_entry : forall w p,
  metadata_fails w p = true ->
  cwd_search w = false \/ (NAME_MAX < List.length p)%nat \/
  dir_lookup (cwd w) p = None \/
  exists t, dir_lookup (cwd w) p = Some (Symlink t).
Proof.
  unfold metadata_fails, fs_stat, MAXSYMLINKS; intros w p H.
  destruct (cwd_search w); [|left; reflexivity].
  right; cbn [stat_follow] in H.
  destruct (Nat.ltb NAME_MAX (List.length p)) eqn:Hn;
    [left; apply Nat.ltb_lt; exact Hn|right].
  destruct (dir_lookup (cwd w) p) as [[| |t]|]; [discriminate|discriminate| |].
  - right; exists t; reflexivity.
  - left; reflexivity.
Qed.

(** *** Claims about the string generators and the filename generator *)

(** C5: for every [length], [generate_bytes(length)] yields exactly
    [length] bytes, and a string returned by [generate_alphanumeric(length)]
    has exactly [length] characters; neither call panics, and [length = 0]
    gives the empty vector and the empty string without touching the
    generator. *)
Theorem generate_bytes_alphanumeric_length : forall (len : nat) (w : World),
  (exists bs w', generate_bytes len w = Done bs w' /\ List.length bs = len) /\
  (forall fuel s w', generate_alphanumeric fuel len w = Done s w' ->
     chars_count s = len) /\
  (forall fuel msg w', generate_alphanumeric fuel len w <> Panic msg w') /\
  generate_bytes 0 w = Done [] w /\
  (forall fuel, generate_alphanumeric fuel 0 w = Done [] w).
Proof.
  intros len w; repeat split.
  - apply collect_random_u8_spec.
  - intros fuel s w' H.
    apply (collect_alphanumeric_string _ _ _ _ _ H).
  - intros fuel msg w'; apply collect_alphanumeric_no_panic.
Qed.

(** C6: every character of a string returned by
    [generate_alphanumeric(length)] is one of the 62 symbols [A-Z], [a-z],
    [0-9]: each byte is one, and each byte is a whole character. *)
Theorem generate_alphanumeric_alphabet : forall fuel len w s w',
  generate_alphanumeric fuel len w = Done s w' ->
  Forall (fun b => is_ascii_alphanumeric b = true) s /\
  chars_count s = str_len s.
Proof.
  intros fuel len w s w' H.
  destruct (collect_alphanumeric_string _ _ _ _ _ H)
    as (Hall & _ & Hc & Hl & _).
  split; [exact Hall|congruence].
Qed.

(** C9: the strings returned by [generate_alphanumeric(length)] and by
    [generate_badfile(length)] consist of ASCII bytes only, so their byte
    length equals their character count, [length]. *)
Theorem generated_names_ascii : forall fuel len w s w',
  (generate_alphanumeric fuel len w = Done s w' ->
     Forall (fun b => 0 <= b < 128) s /\ str_len s = len /\ chars_count s = len) /\
  (generate_badfile fuel len w = Done s w' ->
     Forall (fun b => 0 <= b < 128) s /\ str_len s = len /\ chars_count s = len).
Proof.
  intros fuel len w s w'; split; intros H.
  - destruct (collect_alphanumeric_string _ _ _ _ _ H)
      as (_ & Hasc & Hc & Hl & _); auto.
  - unfold generate_badfile in H; destruct (negb _); [discriminate|].
    destruct (badfile_loop_spec _ _ _ _ _ H)
      as (_ & Hasc & Hc & Hl & _); auto.
Qed.

(** C1 (counterexample): [generate_badfile(1)] returns ["A"], the name of
    an entry of the current working directory, both when the entry is a
    dangling symbolic link ([fs::metadata] follows the link and fails with
    ENOENT) and when it is a regular file in a working directory the process
    may not search ([fs::metadata] fails with EACCES). *)
Lemma generate_badfile_returns_taken_name :
  generate_badfile 1 1 dangling_world
    = Done [65] (log_op (OpMetadata [65]) (advance_rng dangling_world)) /\
  dir_lookup (cwd (log_op (OpMetadata [65]) (advance_rng dangling_world))) [65]
    = Some (Symlink [66]) /\
  generate_badfile 1 1 unsearchable_world
    = Done [65] (log_op (OpMetadata [65]) (advance_rng unsearchable_world)) /\
  dir_lookup (cwd (log_op (OpMetadata [65]) (advance_rng unsearchable_world)))
    [65] = Some File.
Proof. repeat split; reflexivity. Qed.

(** C1 (what the code does): whenever [generate_badfile(length)] returns a
    name, the length is positive, the name has exactly [length] characters,
    all from [A-Z], [a-z], [0-9], and [fs::metadata] fails on it at the
    moment of return. The name may still be taken: the failure means that
    no entry of that name exists, or that the entry is a symbolic link that
    does not resolve, or that the process may not search the working
    directory, or that the name is longer than [NAME_MAX]. *)
Theorem generate_badfile_result : forall fuel len w s w',
  generate_badfile fuel len w = Done s w' ->
  (0 < len)%nat /\ chars_count s = len /\ str_len s = len /\
  Forall (fun b => is_ascii_alphanumeric b = true) s /\
  metadata_fails w' s = true /\
  (cwd_search w' = false \/ (NAME_MAX < str_len s)%nat \/
   dir_lookup (cwd w') s = None \/
   exists t, dir_lookup (cwd w') s = Some (Symlink t)).
Proof.
  intros fuel len w s w' H; unfold generate_badfile in H.
  destruct (Nat.ltb 0 len) eqn:Hlt; cbn [negb] in H; [|discriminate].
  destruct (badfile_loop_spec _ _ _ _ _ H)
    as (Hall & _ & Hc & Hl & Hfail & _).
  apply Nat.ltb_lt in Hlt.
  repeat split; try assumption.
  apply metadata_fails_entry; exact Hfail.
Qed.

(** C4: [generate_badfile(length)] panics exactly when [length = 0]; then
    it panics with the world untouched: no word of the generator consumed
    and no filesystem operation performed. *)
Theorem generate_badfile_zero_length : forall fuel len w,
  (len = 0%nat ->
     generate_badfile fuel len w = Panic "cannot sample empty file name" w) /\
  (forall msg w', generate_badfile fuel len w = Panic msg w' -> len = 0%nat).
Proof.
  intros fuel len w; split.
  - intros ->; reflexivity.
  - intros msg w' H; unfold generate_badfile in H.
    destruct (Nat.ltb 0 len) eqn:Hlt; cbn [negb] in H.
    + exfalso; eapply badfile_loop_no_panic; exact H.
    + apply Nat.ltb_ge in Hlt; lia.
Qed.

(** C8: [generate_badfile] leaves the working directory unchanged and its
    only filesystem operations are [fs::metadata] checks, one per
    candidate: one for each rejected candidate (an existing name) and one
    for the returned name; when it panics, the world is untouched. *)
Theorem generate_badfile_frame : forall fuel len w,
  (forall s w', generate_badfile fuel len w = Done s w' ->
     cwd w' = cwd w /\
     exists rejected,
       fs_log w' = OpMetadata s :: map OpMetadata rejected ++ fs_log w /\
       Forall (fun c => metadata_fails w c = false) rejected) /\
  (forall msg w', generate_badfile fuel len w = Panic msg w' -> w' = w).
Proof.
  intros fuel len w; split.
  - intros s w' H; unfold generate_badfile in H.
    destruct (Nat.ltb 0 len); cbn [negb] in H; [|discriminate].
    destruct (badfile_loop_spec _ _ _ _ _ H)
      as (_ & _ & _ & _ & _ & Hcwd & _ & Hlog); auto.
  - intros msg w' H; unfold generate_badfile in H.
    destruct (Nat.ltb 0 len); cbn [negb] in H.
    + exfalso; eapply badfile_loop_no_panic; exact H.
    + injection H as _ <-; reflexivity.
Qed.

(** *** Termination of the retry loop *)

Lemma alphanumeric_sample_mono : forall f f' w b w',
  alphanumeric_sample f w = Done b w' -> (f <= f')%nat ->
  alphanumeric_sample f' w = Done b w'.
Proof.
  induction f as [|f IH]; intros f' w b w' H Hle; [discriminate|].
  destruct f' as [|f']; [lia|].
  cbn [alphanumeric_sample] in *; unfold bind, next_u32 in *.
  cbv beta zeta in *.
  destruct (_ <? _); [exact H|].
  apply IH; [exact H|lia].
Qed.

Lemma collect_alphanumeric_mono : forall f f' n s w r w',
  collect_alphanumeric f n s w = Done r w' -> (f <= f')%nat ->
  collect_alphanumeric f' n s w = Done r w'.
Proof.
  intros f f'; induction n as [|n IH]; intros s w r w' H Hle; [exact H|].
  cbn [collect_alphanumeric] in *; unfold bind in *.
  destruct (alphanumeric_sample f w) as [b w1| |] eqn:Hs; try discriminate.
  rewrite (alphanumeric_sample_mono _ _ _ _ _ Hs Hle).
  apply IH; assumption.
Qed.

Lemma badfile_loop_terminates : forall f len w,
  eventually_free f len w ->
  exists n s w', forall m, (n <= m)%nat -> badfile_loop m len w = Done s w'.
Proof.
  intros f len w Hev; induction Hev as [w c w1 Hc Hfree|w c w1 Hc Htaken _ IH].
  - exists (S f), c, (log_op (OpMetadata c) w1).
    intros [|m] Hm; [lia|].
    cbn [badfile_loop]; unfold bind.
    rewrite (collect_alphanumeric_mono _ _ _ _ _ _ _ Hc) by lia.
    unfold fs_metadata, metadata_fails in *; rewrite Hfree; reflexivity.
  - destruct IH as (n & s & w' & Hrun).
    exists (S (Nat.max f n)), s, w'.
    intros [|m] Hm; [lia|].
    cbn [badfile_loop]; unfold bind.
    rewrite (collect_alphanumeric_mono _ _ _ _ _ _ _ Hc) by lia.
    unfold fs_metadata, metadata_fails in *; rewrite Htaken.
    apply Hrun; lia.
Qed.

Lemma collide_loop : forall N k p l, (p + k)%nat = N ->
  exists w', badfile_loop (S k) 1 (mkWorld [([65], File)] (collide_words N) p l true)
               = Done [66] w' /\
             List.length (fs_log w') = (S k + List.length l)%nat.
Proof.
  intros N; induction k as [|k IH]; intros p l Hpk.
  - assert (Hw : collide_words N p = 2 ^ 26)
      by (unfold collide_words; replace (Nat.ltb p N) with false
            by (symmetry; apply Nat.ltb_ge; lia); reflexivity).
    eexists; cbn [badfile_loop collect_alphanumeric alphanumeric_sample];
      unfold bind, next_u32, ret, fs_metadata; cbn [rng_words rng_pos];
      rewrite Hw; split; reflexivity.
  - assert (Hw : collide_words N p = 0)
      by (unfold collide_words; replace (Nat.ltb p N) with true
            by (symmetry; apply Nat.ltb_lt; lia); reflexivity).
    destruct (IH (S p) (OpMetadata [65] :: l) ltac:(lia)) as (w' & Hrun & Hlen).
    exists w'; split.
    + cbn [badfile_loop collect_alphanumeric alphanumeric_sample];
        unfold bind, next_u32, ret, fs_metadata; cbn [rng_words rng_pos];
        rewrite Hw; exact Hrun.
    + rewrite Hlen; cbn; lia.
Qed.

(** C7: the retry loop of [generate_badfile] has no iteration cap: for
    every [N] there is a directory and a generator for which the call
    rejects [N] taken candidates and still returns a name, after [N + 1]
    existence checks. And for every [length > 0], if the generator
    eventually yields a candidate on which the existence check fails, the
    call returns a name. *)
Theorem generate_badfile_uncapped_termination :
  (forall N : nat, exists fuel s w',
     generate_badfile fuel 1 (collide_world N) = Done s w' /\
     List.length (fs_log w') = S N) /\
  (forall f len w, (0 < len)%nat -> eventually_free f len w ->
     exists fuel s w', generate_badfile fuel len w = Done s w').
Proof.
  split.
  - intros N; destruct (collide_loop N N 0 [] ltac:(lia)) as (w' & Hrun & Hlen).
    exists (S N), [66], w'; split; [exact Hrun|].
    rewrite Hlen; cbn; lia.
  - intros f len w Hlen Hev.
    destruct (badfile_loop_terminates _ _ _ Hev) as (n & s & w' & Hrun).
    exists n, s, w'; unfold generate_badfile.
    replace (Nat.ltb 0 len) with true by (symmetry; apply Nat.ltb_lt; exact Hlen).
    apply Hrun; lia.
Qed.

Lemma generate_badfile_uncapped_termination_witness :
  (0 < 1)%nat /\ eventually_free 1 1 (collide_world 1) /\
  exists fuel s w', generate_badfile fuel 1 (collide_world 1) = Done s w'.
Proof.
  assert (Hlt : (0 < 1)%nat) by lia.
  assert (Hev : eventually_free 1 1 (collide_world 1)).
  { eapply ef_taken; [reflexivity|reflexivity|].
    eapply ef_free; reflexivity. }
  split; [exact Hlt|split; [exact Hev|]].
  exact (proj2 generate_badfile_uncapped_termination 1%nat 1%nat _ Hlt Hev).
Defined.

(** ** Proofs: integer ranges *)

Section IntLemmas.
Variable t : IntTy.
Hypothesis Hwf : int_wf t.

Lemma pow_bits_split : 2 ^ bits t = 2 * 2 ^ (bits t - 1).
Proof.
  destruct Hwf as [[Hb _] _].
  rewrite <- Z.pow_succ_r by lia; f_equal; lia.
Qed.

Lemma pow_bits_pos : 0 < 2 ^ (bits t - 1).
Proof. destruct Hwf as [[Hb _] _]; apply Z.pow_pos_nonneg; lia. Qed.

Lemma int_span : int_max t - int_min t = 2 ^ bits t - 1.
Proof.
  pose proof pow_bits_split.
  unfold int_max, int_min; destruct (signed t); lia.
Qed.

Lemma wrap_mod : forall z, wrap t z mod 2 ^ bits t = z mod 2 ^ bits t.
Proof.
  intros z; pose proof pow_bits_split; pose proof pow_bits_pos; unfold wrap.
  destruct (signed t && _); [|apply Z.mod_mod; lia].
  rewrite Zminus_mod, Z.mod_same, Z.sub_0_r, !Z.mod_mod by lia.
  reflexivity.
Qed.

Lemma wrap_congr : forall z1 z2,
  z1 mod 2 ^ bits t = z2 mod 2 ^ bits t -> wrap t z1 = wrap t z2.
Proof. intros z1 z2 H; unfold wrap; rewrite H; reflexivity. Qed.

Lemma wrap_in_int : forall z, in_int t (wrap t z).
Proof.
  intros z; pose proof pow_bits_split; pose proof pow_bits_pos.
  pose proof (Z.mod_pos_bound z (2 ^ bits t) ltac:(lia)).
  unfold in_int, wrap, int_min, int_max.
  destruct (signed t); cbn [andb]; [|lia].
  destruct (2 ^ (bits t - 1) <=? z mod 2 ^ bits t) eqn:E;
    [apply Z.leb_le in E|apply Z.leb_gt in E]; lia.
Qed.

Lemma wrap_id : forall z, in_int t z -> wrap t z = z.
Proof.
  intros z Hz; pose proof pow_bits_split; pose proof pow_bits_pos.
  unfold in_int, wrap, int_min, int_max in *.
  destruct (signed t); cbn [andb].
  - destruct (Z_lt_le_dec z 0) as [Hneg|Hnn].
    + assert (Hm : z mod 2 ^ bits t = z + 2 ^ bits t).
      { rewrite <- (Z.mod_add z 1) by lia.
        rewrite Z.mul_1_l; apply Z.mod_small; lia. }
      rewrite Hm; replace (2 ^ (bits t - 1) <=? z + 2 ^ bits t) with true
        by (symmetry; apply Z.leb_le; lia); lia.
    + rewrite Z.mod_small by lia.
      replace (2 ^ (bits t - 1) <=? z) with false
        by (symmetry; apply Z.leb_gt; lia); reflexivity.
  - apply Z.mod_small; lia.
Qed.

Lemma wrap_add : forall a b, wrap t (a + wrap t b) = wrap t (a + b).
Proof.
  intros a b; apply wrap_congr.
  rewrite Zplus_mod, wrap_mod, <- Zplus_mod; reflexivity.
Qed.

Lemma range_value : forall low high,
  in_int t low -> in_int t high -> low <= high ->
  wrap t (wrap t (high - low) + 1) mod 2 ^ bits t
    = (high - low + 1) mod 2 ^ bits t.
Proof.
  intros low high _ _ _.
  rewrite wrap_mod, Zplus_mod, wrap_mod, <- Zplus_mod; reflexivity.
Qed.

Lemma sample_words : 32 * Z.of_nat (Z.to_nat (sample_bits t / 32)) = sample_bits t.
Proof.
  destruct Hwf as [_ [Hpos Hmod]].
  rewrite Z2Nat.id by (apply Z.div_pos; lia).
  pose proof (Z.div_mod (sample_bits t) 32 ltac:(lia)); lia.
Qed.

Lemma bits_le_sample : 2 ^ bits t <= 2 ^ sample_bits t.
Proof. destruct Hwf as [[Hb Hs] _]; apply Z.pow_le_mono_r; lia. Qed.
End IntLemmas.

Lemma lor_shiftl_add : forall lo hi,
  0 <= lo < 2 ^ 32 -> Z.lor lo (Z.shiftl hi 32) = lo + hi * 2 ^ 32.
Proof.
  intros lo hi Hlo.
  rewrite <- Z.shiftl_mul_pow2 by lia.
  rewrite <- Z.lxor_lor, <- Z.add_nocarry_lxor; [reflexivity| |];
    apply Z.bits_inj'; intros n Hn; rewrite Z.land_spec, Z.bits_0;
    destruct (Z_lt_le_dec n 32).
  all: try (rewrite Z.shiftl_spec_low by lia; apply andb_false_r).
  all: rewrite <- (Z.mod_small lo (2 ^ 32)) by exact Hlo;
       rewrite Z.mod_pow2_bits_high by lia; reflexivity.
Qed.

Lemma next_words_spec : forall k w,
  exists x w', next_words k w = Done x w' /\ 0 <= x < 2 ^ (32 * Z.of_nat k).
Proof.
  induction k as [|k IH]; intros w.
  - exists 0, w; split; [reflexivity|cbn; lia].
  - destruct (IH (advance_rng w)) as (hi & w' & Hrun & Hhi).
    set (lo := rng_words w (rng_pos w) mod 2 ^ 32).
    assert (Hlo : 0 <= lo < 2 ^ 32) by (apply Z.mod_pos_bound; lia).
    exists (Z.lor lo (Z.shiftl hi 32)), w'; split.
    + cbn [next_words]; unfold bind, next_u32, ret; fold lo; rewrite Hrun.
      reflexivity.
    + rewrite lor_shiftl_add by exact Hlo.
      replace (32 * Z.of_nat (S k)) with (32 + 32 * Z.of_nat k) by lia.
      rewrite Z.pow_add_r by lia; nia.
Qed.

(** Canon's method never leaves the range [0, range - 1]. *)
Lemma canon_bound : forall S r x y,
  0 < r <= S -> 0 <= x < S -> 0 <= y < S ->
  0 <= x * r / S + Z.b2z (S <=? x * r mod S + y * r / S) <= r - 1.
Proof.
  intros S r x y Hr Hx Hy.
  pose proof (Z.div_mod (x * r) S ltac:(lia)) as Hdm.
  pose proof (Z.mod_pos_bound (x * r) S ltac:(lia)) as Hlo.
  set (hi := x * r / S) in *; set (lo := x * r mod S) in *.
  assert (Hhi0 : 0 <= hi) by (apply Z.div_pos; nia).
  assert (Hhi : hi <= r - 1).
  { assert (hi < r) by (apply Z.div_lt_upper_bound; nia); lia. }
  assert (Hnh : 0 <= y * r / S <= r - 1).
  { split; [apply Z.div_pos; nia|].
    assert (y * r / S < r) by (apply Z.div_lt_upper_bound; nia); lia. }
  destruct (S <=? lo + y * r / S) eqn:Hc; cbn [Z.b2z]; [|lia].
  apply Z.leb_le in Hc.
  destruct (Z.eq_dec hi (r - 1)) as [Heq|Hne]; [|lia].
  exfalso; rewrite Heq in Hdm; nia.
Qed.

Lemma int_sample_single_inclusive_spec : forall t low high w,
  int_wf t -> in_int t low -> in_int t high -> low <= high ->
  exists v w', int_sample_single_inclusive t low high w = Done (Ok v) w' /\
               low <= v <= high.
Proof.
  intros t low high w Hwf Hl Hh Hle.
  pose proof (int_span t Hwf) as Hspan.
  pose proof (bits_le_sample t Hwf) as HWS.
  pose proof (pow_bits_pos t Hwf) as HH.
  pose proof (pow_bits_split t Hwf) as HW.
  unfold int_sample_single_inclusive; cbv zeta.
  replace (low <=? high) with true by (symmetry; apply Z.leb_le; exact Hle).
  cbn [negb]; rewrite (range_value t Hwf low high Hl Hh Hle).
  assert (Hd : high - low <= 2 ^ bits t - 1)
    by (unfold in_int in Hl, Hh; lia).
  destruct (Z.eq_dec (high - low + 1) (2 ^ bits t)) as [Hfull|Hpart].
  - rewrite Hfull, Z.mod_same by lia; cbn [Z.eqb].
    unfold random_int, bind, ret; cbv beta.
    destruct (next_words_spec (Z.to_nat (Z.max 1 (bits t / 32))) w)
      as (x & w' & Hrun & _).
    rewrite Hrun; exists (wrap t x), w'; split; [reflexivity|].
    pose proof (wrap_in_int t Hwf x); unfold in_int in *; lia.
  - rewrite Z.mod_small by lia.
    replace (high - low + 1 =? 0) with false by (symmetry; apply Z.eqb_neq; lia).
    unfold random_sample_ty, bind, ret; cbv beta.
    destruct (next_words_spec (Z.to_nat (sample_bits t / 32)) w)
      as (x & w1 & Hrun & Hx).
    rewrite (sample_words t Hwf) in Hx; rewrite Hrun.
    set (S := 2 ^ sample_bits t) in *; set (r := high - low + 1) in *.
    assert (Hr : 0 < r <= S) by lia.
    destruct ((S - r) mod S <? x * r mod S).
    + destruct (next_words_spec (Z.to_nat (sample_bits t / 32)) w1)
        as (y & w2 & Hrun2 & Hy).
      rewrite (sample_words t Hwf) in Hy; rewrite Hrun2.
      pose proof (canon_bound S r x y Hr Hx Hy) as Hc.
      eexists; exists w2; split; [reflexivity|].
      rewrite wrap_add, wrap_id by (exact Hwf || (unfold in_int in *; lia)).
      lia.
    + assert (Hq : 0 <= x * r / S <= r - 1).
      { split; [apply Z.div_pos; nia|].
        assert (x * r / S < r) by (apply Z.div_lt_upper_bound; nia); lia. }
      eexists; exists w1; split; [reflexivity|].
      rewrite wrap_add, wrap_id by (exact Hwf || (unfold in_int in *; lia)).
      lia.
Qed.

Lemma generate_range_nonempty : forall T (U : SampleUniform T) r w,
  is_empty U r = false ->
  generate_range U r w =
    match range_sample_single U r w with
    | Done (Ok v) w' => Done v w'
    | Done (Err _) w' => Panic unwrap_failed w'
    | Panic msg w' => Panic msg w'
    | OutOfFuel => OutOfFuel
    end.
Proof.
  intros T U r w H; unfold generate_range, random_range, bind; rewrite H.
  cbn [negb]; destruct (range_sample_single U r w) as [[v|e] w'| |];
    reflexivity.
Qed.

Lemma int_generate_range_spec : forall t a b w,
  int_wf t -> in_int t a -> in_int t b ->
  (a < b -> exists v w', generate_range (int_sampler t) (Range a b) w = Done v w' /\
                         a <= v < b) /\
  (a <= b -> exists v w',
     generate_range (int_sampler t) (RangeInclusive a b) w = Done v w' /\
     a <= v <= b).
Proof.
  intros t a b w Hwf Ha Hb; split; intros Hab.
  - assert (He : is_empty (int_sampler t) (Range a b) = false)
      by (cbn; rewrite (proj2 (Z.ltb_lt a b) Hab); reflexivity).
    rewrite generate_range_nonempty by exact He; cbn [range_sample_single].
    cbn [sample_single int_sampler]; unfold int_sample_single.
    rewrite (proj2 (Z.ltb_lt a b) Hab); cbn [negb].
    destruct (int_sample_single_inclusive_spec t a (b - 1) w Hwf Ha
                ltac:(unfold in_int in *; lia) ltac:(lia))
      as (v & w' & Hrun & Hv).
    rewrite Hrun; exists v, w'; split; [reflexivity|lia].
  - assert (He : is_empty (int_sampler t) (RangeInclusive a b) = false)
      by (cbn; rewrite (proj2 (Z.leb_le a b) Hab); reflexivity).
    rewrite generate_range_nonempty by exact He; cbn [range_sample_single].
    cbn [sample_single_inclusive int_sampler].
    destruct (int_sample_single_inclusive_spec t a b w Hwf Ha Hb Hab)
      as (v & w' & Hrun & Hv).
    rewrite Hrun; exists v, w'; split; [reflexivity|lia].
Qed.

Lemma f64_lt_le : forall a b, f64_lt a b = true -> f64_le a b = true.
Proof.
  unfold f64_lt, f64_le, SFltb, SFleb; intros a b.
  destruct (SFcompare a b) as [[| |]|]; auto.
Qed.

Lemma f64_nonempty_le : forall debug r,
  is_empty (f64_sampler debug) r = false ->
  f64_le (range_start r) (range_end r) = true.
Proof.
  intros debug [a b|a b] H; cbn in H; apply negb_false_iff in H; cbn.
  - apply f64_lt_le; exact H.
  - exact H.
Qed.

Lemma f64_generate_range_spec : forall debug r w,
  is_empty (f64_sampler debug) r = false ->
  (f64_rejects debug (range_start r) (range_end r) = true ->
     generate_range (f64_sampler debug) r w = Panic unwrap_failed w) /\
  (f64_rejects debug (range_start r) (range_end r) = false ->
     exists v w', generate_range (f64_sampler debug) r w = Done v w').
Proof.
  intros debug r w He.
  pose proof (f64_nonempty_le debug r He) as Hle.
  rewrite generate_range_nonempty by exact He.
  assert (Hs : range_sample_single (f64_sampler debug) r
               = f64_sample_single_inclusive debug (range_start r) (range_end r))
    by (destruct r; reflexivity).
  rewrite Hs; unfold f64_sample_single_inclusive, f64_rejects.
  rewrite Hle; cbn [negb].
  destruct (debug && negb (f64_is_finite (range_start r)
                           && f64_is_finite (range_end r))); cbn [orb].
  - split; [reflexivity|discriminate].
  - destruct (f64_is_finite (f64_sub (range_end r) (range_start r)));
      cbn [negb].
    + split; [discriminate|].
      intros _; unfold bind, ret.
      destruct (next_words_spec 2 w) as (u & w' & Hrun & _).
      rewrite Hrun; eexists; exists w'; reflexivity.
    + split; [reflexivity|discriminate].
Qed.

(** *** [f64] arithmetic on the singleton path *)

Lemma digits2_pos_lower : forall p, 2 ^ (Zpos (digits2_pos p) - 1) <= Zpos p.
Proof.
  induction p as [p IH|p IH|]; cbn [digits2_pos]; [| |cbn; lia];
    rewrite Pos2Z.inj_succ;
    replace (Z.succ (Zpos (digits2_pos p)) - 1)
      with (Z.succ (Zpos (digits2_pos p) - 1)) by (clear; lia);
    rewrite Z.pow_succ_r by (clear; lia);
    first [rewrite (Pos2Z.inj_xI p) | rewrite (Pos2Z.inj_xO p)]; lia.
Qed.

Lemma digits2_pos_iter_xO : forall p d,
  digits2_pos (Pos.iter xO p d) = (digits2_pos p + d)%positive.
Proof.
  intros p d; induction d as [|d IH] using Pos.peano_ind.
  - cbn; rewrite Pos.add_1_r; reflexivity.
  - rewrite Pos.iter_succ; cbn [digits2_pos]; rewrite IH, Pos.add_succ_r.
    reflexivity.
Qed.

Lemma lor_shiftl_add_gen : forall k lo hi, 0 <= k ->
  0 <= lo < 2 ^ k -> Z.lor lo (Z.shiftl hi k) = lo + hi * 2 ^ k.
Proof.
  intros k lo hi Hk Hlo.
  rewrite <- Z.shiftl_mul_pow2 by lia.
  rewrite <- Z.lxor_lor, <- Z.add_nocarry_lxor; [reflexivity| |];
    apply Z.bits_inj'; intros n Hn; rewrite Z.land_spec, Z.bits_0;
    destruct (Z_lt_le_dec n k).
  all: try (rewrite Z.shiftl_spec_low by lia; apply andb_false_r).
  all: rewrite <- (Z.mod_small lo (2 ^ k)) by exact Hlo;
       rewrite Z.mod_pow2_bits_high by lia; reflexivity.
Qed.

(** [value1_2] of the float sampler: the bits [m] under the exponent of 1. *)
Lemma into_float_with_exponent_0_value : forall m, 0 <= m < 2 ^ 52 ->
  into_float_with_exponent_0 m
    = S754_finite false (Z.to_pos (2 ^ 52 + m)) (-52).
Proof.
  intros m Hm; unfold into_float_with_exponent_0, f64_from_bits; cbv zeta.
  rewrite lor_shiftl_add_gen by lia.
  set (b := m + 1023 * 2 ^ 52).
  assert (Hs : Z.testbit b 63 = false).
  { apply Bool.not_true_iff_false; intros Ht.
    pose proof (Z.testbit_spec' b 63 ltac:(lia)) as Hsp.
    rewrite Ht, Z.div_small in Hsp by (unfold b; lia).
    discriminate Hsp. }
  assert (He : Z.shiftr b 52 = 1023).
  { rewrite Z.shiftr_div_pow2 by lia; symmetry.
    apply Z.div_unique with m; unfold b; lia. }
  assert (Hf : Z.land b (2 ^ 52 - 1) = m).
  { replace (2 ^ 52 - 1) with (Z.ones 52) by reflexivity.
    rewrite Z.land_ones by lia; unfold b.
    rewrite Z.mod_add, Z.mod_small by lia; reflexivity. }
  rewrite Hs, He, Hf; reflexivity.
Qed.

Lemma SFsub_same_exponent : forall sx mx sy my e,
  SFsub 53 1024 (S754_finite sx mx e) (S754_finite sy my e)
    = binary_normalize 53 1024
        (cond_Zopp sx (Zpos mx) - cond_Zopp sy (Zpos my)) e false.
Proof.
  intros sx mx sy my e; cbn [SFsub]; rewrite Z.min_id; unfold shl_align.
  rewrite Z.sub_diag; reflexivity.
Qed.

(** A number [m * 2^-52] with [0 <= m < 2^52] is exact in [f64]: rounding
    gives [+0.0] or a positive finite value. *)
Lemma binary_normalize_small : forall m, 0 <= m < 2 ^ 52 ->
  binary_normalize 53 1024 m (-52) false = S754_zero false \/
  exists mm e, binary_normalize 53 1024 m (-52) false = S754_finite false mm e.
Proof.
  intros [|p|p] Hm; [left; reflexivity| |lia].
  right; cbn [binary_normalize]; unfold binary_round.
  set (d := digits2_pos p).
  pose proof (digits2_pos_lower p) as Hlow; fold d in Hlow.
  assert (Hd : Zpos d <= 52).
  { destruct (Z_le_gt_dec (Zpos d) 52) as [|Hgt]; [assumption|].
    assert (2 ^ 52 <= 2 ^ (Zpos d - 1)) by (apply Z.pow_le_mono_r; lia).
    lia. }
  set (k := Z.to_pos (53 - Zpos d)).
  assert (Hk : Zpos k = 53 - Zpos d) by (unfold k; rewrite Z2Pos.id; lia).
  assert (H1 : fexp 53 1024 (Zpos d + -52) = Zpos d - 105)
    by (unfold fexp, emin; lia).
  rewrite H1.
  assert (H2 : shl_align p (-52) (Zpos d - 105) = (Pos.iter xO p k, Zpos d - 105)).
  { unfold shl_align.
    replace (Zpos d - 105 - -52) with (Zneg k) by lia; reflexivity. }
  rewrite H2.
  assert (H3 : Zpos (digits2_pos (Pos.iter xO p k)) = 53)
    by (rewrite digits2_pos_iter_xO, Pos2Z.inj_add; fold d; lia).
  assert (H4 : fexp 53 1024 (53 + (Zpos d - 105)) - (Zpos d - 105) = 0)
    by (unfold fexp, emin; lia).
  unfold binary_round_aux, shr_fexp; cbn [Zdigits2 shr_record_of_loc].
  rewrite H3, H4; cbn [shr shr_m loc_of_shr_record round_nearest_even
                       shr_record_of_loc Zdigits2].
  rewrite H3, H4; cbn [shr shr_m].
  replace (Z.leb (Zpos d - 105) (1024 - 53)) with true
    by (symmetry; apply Z.leb_le; lia).
  eexists; eexists; reflexivity.
Qed.

(** [value0_1] of the float sampler is [+0.0] or positive and finite. *)
Lemma value0_1_shape : forall u, 0 <= u < 2 ^ 64 ->
  let v := f64_sub (into_float_with_exponent_0 (Z.shiftr u (64 - 52))) f64_ONE in
  v = S754_zero false \/ exists mm e, v = S754_finite false mm e.
Proof.
  intros u Hu v.
  assert (Hm : 0 <= Z.shiftr u (64 - 52) < 2 ^ 52).
  { rewrite Z.shiftr_div_pow2 by lia; split; [apply Z.div_pos; lia|].
    apply Z.div_lt_upper_bound; lia. }
  unfold v; rewrite into_float_with_exponent_0_value by exact Hm.
  replace f64_ONE with (S754_finite false 4503599627370496 (-52))
    by reflexivity.
  unfold f64_sub; rewrite SFsub_same_exponent; cbn [cond_Zopp].
  rewrite Z2Pos.id by lia.
  replace (2 ^ 52 + Z.shiftr u (64 - 52) - 4503599627370496)
    with (Z.shiftr u (64 - 52)) by lia.
  apply binary_normalize_small; exact Hm.
Qed.

Lemma f64_le_refl_finite : forall a, f64_is_finite a = true -> f64_le a a = true.
Proof.
  intros [s|s| |s m e] H; try discriminate; [reflexivity|].
  unfold f64_le, SFleb, SFcompare; rewrite Z.compare_refl.
  unfold Pos.compare_cont; rewrite Pos.compare_cont_refl.
  destruct s; reflexivity.
Qed.

Lemma f64_sub_self_finite : forall a, f64_is_finite a = true ->
  f64_sub a a = S754_zero false.
Proof.
  intros [s|s| |s m e] H; try discriminate; [destruct s; reflexivity|].
  unfold f64_sub; rewrite SFsub_same_exponent, Z.sub_diag; reflexivity.
Qed.

(** *** Claims about [generate_range] *)

(** C2 (counterexample): [f64::MIN..f64::MAX] is not empty, yet
    [generate_range] panics on it, in release and in debug builds: its width
    [f64::MAX - f64::MIN] overflows to infinity and the [NonFinite] error of
    the sampler is unwrapped. *)
Lemma generate_range_f64_overflow_panics :
  is_empty (f64_sampler false) (Range f64_MIN f64_MAX) = false /\
  generate_range (f64_sampler false) (Range f64_MIN f64_MAX) zero_world
    = Panic unwrap_failed zero_world /\
  generate_range (f64_sampler true) (Range f64_MIN f64_MAX) zero_world
    = Panic unwrap_failed zero_world.
Proof. vm_compute; repeat split. Qed.

(** C2 (amended): [generate_range] panics on every empty range, before
    drawing from the generator. On integer ranges it panics only then. On a
    non-empty [f64] range it also panics, exactly when the width
    [high - low] is not finite or, in a build with debug assertions, a
    bound is not finite; otherwise it returns. *)
Theorem generate_range_panic_cases :
  (forall T (U : SampleUniform T) r w, is_empty U r = true ->
     generate_range U r w = Panic "cannot sample empty range" w) /\
  (forall t r w, int_wf t -> in_int t (range_start r) -> in_int t (range_end r) ->
     is_empty (int_sampler t) r = false ->
     exists v w', generate_range (int_sampler t) r w = Done v w') /\
  (forall debug r w, is_empty (f64_sampler debug) r = false ->
     (f64_rejects debug (range_start r) (range_end r) = true ->
        generate_range (f64_sampler debug) r w = Panic unwrap_failed w) /\
     (f64_rejects debug (range_start r) (range_end r) = false ->
        exists v w', generate_range (f64_sampler debug) r w = Done v w')).
Proof.
  split; [|split].
  - intros T U r w H; unfold generate_range; rewrite H; reflexivity.
  - intros t [a b|a b] w Hwf Ha Hb He; cbn in Ha, Hb, He;
      apply negb_false_iff in He.
    + apply Z.ltb_lt in He.
      destruct (proj1 (int_generate_range_spec t a b w Hwf Ha Hb) He)
        as (v & w' & Hrun & _); eauto.
    + apply Z.leb_le in He.
      destruct (proj2 (int_generate_range_spec t a b w Hwf Ha Hb) He)
        as (v & w' & Hrun & _); eauto.
  - apply f64_generate_range_spec.
Qed.

Lemma generate_range_panic_cases_witness :
  generate_range (int_sampler i32) (Range 5 5) zero_world
    = Panic "cannot sample empty range" zero_world /\
  (exists v w', generate_range (int_sampler i32) (Range 10 20) zero_world
                  = Done v w') /\
  generate_range (f64_sampler true) (RangeInclusive f64_INFINITY f64_INFINITY)
    zero_world = Panic unwrap_failed zero_world /\
  (exists v w', generate_range (f64_sampler false) (Range f64_ONE f64_TWO)
                  zero_world = Done v w').
Proof.
  destruct generate_range_panic_cases as (Hempty & Hint & Hf64).
  split; [apply Hempty; reflexivity|].
  split; [apply (Hint i32 (Range 10 20) zero_world);
          [unfold int_wf; cbn; lia|unfold in_int; cbn; lia
          |unfold in_int; cbn; lia|reflexivity]|].
  split.
  - apply (proj1 (Hf64 true (RangeInclusive f64_INFINITY f64_INFINITY)
                    zero_world ltac:(vm_compute; reflexivity)));
      vm_compute; reflexivity.
  - apply (proj2 (Hf64 false (Range f64_ONE f64_TWO) zero_world
                    ltac:(vm_compute; reflexivity)));
      vm_compute; reflexivity.
Defined.

(** C3 (counterexample): on the non-empty [f64] range [1.0..1.0 + 2^-52],
    with the generator's words all [u32::MAX], [generate_range] returns the
    excluded upper bound: [value0_1 * scale + low] rounds up to [high]. *)
Lemma generate_range_f64_returns_end :
  f64_lt f64_ONE f64_ONE_NEXT = true /\
  generate_range (f64_sampler false) (Range f64_ONE f64_ONE_NEXT) ones_world
    = Done f64_ONE_NEXT (advance_rng (advance_rng ones_world)) /\
  generate_range (f64_sampler true) (Range f64_ONE f64_ONE_NEXT) ones_world
    = Done f64_ONE_NEXT (advance_rng (advance_rng ones_world)).
Proof. vm_compute; repeat split. Qed.

(** C3 (what the code does for integers): for every integer type,
    [generate_range] returns a value inside a non-empty range: [a <= v < b] for [a..b] with [a < b], and
    [a <= v <= b] for [a..=b] with [a <= b]. *)
Theorem generate_range_int_in_bounds : forall t a b w,
  int_wf t -> in_int t a -> in_int t b ->
  (a < b -> exists v w', generate_range (int_sampler t) (Range a b) w = Done v w' /\
                         a <= v < b) /\
  (a <= b -> exists v w',
     generate_range (int_sampler t) (RangeInclusive a b) w = Done v w' /\
     a <= v <= b).
Proof. exact int_generate_range_spec. Qed.

Lemma generate_range_int_in_bounds_witness :
  exists v w', generate_range (int_sampler i32) (Range 10 20) zero_world
                 = Done v w' /\ 10 <= v < 20.
Proof.
  apply (proj1 (generate_range_int_in_bounds i32 10 20 zero_world
                  ltac:(unfold int_wf; cbn; lia) ltac:(unfold in_int; cbn; lia)
                  ltac:(unfold in_int; cbn; lia))).
  lia.
Defined.

(** C10 (counterexample): [f64::INFINITY..=f64::INFINITY] is not empty, yet
    [generate_range] panics on it: its width [inf - inf] is NaN. *)
Lemma generate_range_f64_infinite_singleton_panics :
  is_empty (f64_sampler false) (RangeInclusive f64_INFINITY f64_INFINITY)
    = false /\
  generate_range (f64_sampler false) (RangeInclusive f64_INFINITY f64_INFINITY)
    zero_world = Panic unwrap_failed zero_world /\
  generate_range (f64_sampler true) (RangeInclusive f64_INFINITY f64_INFINITY)
    zero_world = Panic unwrap_failed zero_world.
Proof. vm_compute; repeat split. Qed.

(** C10 (amended): [generate_range(a..=a)] does not panic and returns [a]
    for every value [a] of an integer type; for every finite [f64] [a] it
    returns [a] too ([+0.0] for [a = -0.0], which compares equal to it); for
    an infinite or NaN [f64] it panics. *)
Theorem generate_range_singleton :
  (forall t a w, int_wf t -> in_int t a ->
     exists w', generate_range (int_sampler t) (RangeInclusive a a) w
                  = Done a w') /\
  (forall debug a w, f64_is_finite a = true ->
     exists w', generate_range (f64_sampler debug) (RangeInclusive a a) w
                  = Done (match a with
                          | S754_zero _ => S754_zero false
                          | _ => a
                          end) w') /\
  (forall debug a w, f64_is_finite a = false ->
     exists msg, generate_range (f64_sampler debug) (RangeInclusive a a) w
                   = Panic msg w).
Proof.
  split; [|split].
  - intros t a w Hwf Ha.
    destruct (proj2 (int_generate_range_spec t a a w Hwf Ha Ha)
                (Z.le_refl a)) as (v & w' & Hrun & Hv).
    replace v with a in Hrun by lia; eauto.
  - intros debug a w Ha.
    rewrite generate_range_nonempty
      by (cbn [is_empty f64_sampler su_le];
          rewrite f64_le_refl_finite by exact Ha; reflexivity).
    cbn [range_sample_single f64_sampler sample_single_inclusive].
    unfold f64_sample_single_inclusive.
    rewrite Ha, f64_le_refl_finite, f64_sub_self_finite by exact Ha.
    cbn [andb negb f64_is_finite]; rewrite andb_false_r.
    destruct (next_words_spec 2 w) as (u & w' & Hrun & Hu).
    unfold bind; rewrite Hrun; unfold ret; cbv zeta.
    assert (Hu' : 0 <= u < 2 ^ 64) by (cbn in Hu; lia).
    exists w'.
    destruct (value0_1_shape u Hu') as [Hv | (mm & e & Hv)]; cbv zeta in Hv;
      rewrite Hv; destruct a as [s|s| |s m e']; try discriminate;
      destruct s; reflexivity.
  - intros debug a w Ha.
    destruct a as [s|s| |s m e]; try discriminate;
      try destruct s; destruct debug; eexists; reflexivity.
Qed.

Lemma generate_range_singleton_witness :
  (exists w', generate_range (int_sampler i8) (RangeInclusive (-128) (-128))
                zero_world = Done (-128) w') /\
  (exists w', generate_range (f64_sampler true) (RangeInclusive f64_ONE f64_ONE)
                zero_world = Done f64_ONE w') /\
  (exists msg, generate_range (f64_sampler false)
                 (RangeInclusive f64_INFINITY f64_INFINITY) zero_world
                 = Panic msg zero_world).
Proof.
  destruct generate_range_singleton as (Hint & Hfin & Hinf).
  split; [|split].
  - exact (Hint i8 (-128) zero_world
             ltac:(unfold int_wf; cbn; lia) ltac:(unfold in_int; cbn; lia)).
  - exact (Hfin true f64_ONE zero_world ltac:(vm_compute; reflexivity)).
  - exact (Hinf false f64_INFINITY zero_world ltac:(vm_compute; reflexivity)).
Defined.

(** ** Proofs: the code beyond the claims *)

(** *** The generator's stream *)

Lemma next_words_env : forall k w x w',
  next_words k w = Done x w' ->
  same_env w w' /\ rng_pos w' = (rng_pos w + k)%nat.
Proof.
  induction k as [|k IH]; intros w x w' H.
  - cbn in H; unfold ret in H; apply Done_inj in H; destruct H as [_ <-].
    split; [apply same_env_refl|lia].
  - cbn [next_words] in H; unfold bind, next_u32, ret in H.
    destruct (next_words k (advance_rng w)) as [hi w1| |] eqn:Hk;
      try discriminate.
    apply Done_inj in H; destruct H as [_ <-].
    destruct (IH _ _ _ Hk) as [He Hp]; split.
    + eapply same_env_trans; [apply same_env_advance|exact He].
    + rewrite Hp; cbn; lia.
Qed.

(** [next_words k] reads back the [k] low words of [u] when the stream holds
    the base-[2^32] digits of [u] from the current position on. *)
Lemma next_words_digits : forall k w u,
  (forall j, rng_words w (rng_pos w + j) mod 2 ^ 32
             = (u / 2 ^ (32 * Z.of_nat j)) mod 2 ^ 32) ->
  exists w', next_words k w = Done (u mod 2 ^ (32 * Z.of_nat k)) w'.
Proof.
  induction k as [|k IH]; intros w u Hd.
  - exists w; cbn; rewrite Z.mod_1_r; reflexivity.
  - destruct (IH (advance_rng w) (u / 2 ^ 32)) as (w' & Hrun).
    { intros j; cbn [rng_words rng_pos advance_rng].
      replace (S (rng_pos w) + j)%nat with (rng_pos w + S j)%nat by lia.
      rewrite Hd, Z.div_div by lia.
      rewrite <- Z.pow_add_r by lia.
      f_equal; f_equal; f_equal; lia. }
    exists w'; cbn [next_words]; unfold bind, next_u32, ret.
    rewrite Hrun.
    pose proof (Hd 0%nat) as H0; rewrite Nat.add_0_r in H0.
    cbn [Z.of_nat] in H0; rewrite Z.mul_0_r, Z.pow_0_r, Z.div_1_r in H0.
    rewrite H0, lor_shiftl_add by (apply Z.mod_pos_bound; lia).
    replace (32 * Z.of_nat (S k)) with (32 + 32 * Z.of_nat k) by lia.
    rewrite Z.pow_add_r, Z.rem_mul_r by lia; f_equal; ring.
Qed.

Lemma rust_int_types_wf : forall t, In t rust_int_types ->
  int_wf t /\ bits t <= 32 * Z.max 1 (bits t / 32).
Proof.
  intros t H; unfold rust_int_types in H.
  repeat (destruct H as [<-|H]; [unfold int_wf; cbn; lia|]); destruct H.
Qed.

(** *** [rand::distr::Alphanumeric] *)

Lemma charset_nodup : NoDup GEN_ASCII_STR_CHARSET.
Proof.
  vm_compute; repeat constructor; cbn; intros H;
    repeat (destruct H as [H|H]; [discriminate H|]); exact H.
Qed.

Lemma stream_window_cons : forall w p n,
  stream_window w p (S n) = rng_words w p mod 2 ^ 32 :: stream_window w (S p) n.
Proof. reflexivity. Qed.

Lemma stream_window_app : forall w p n m,
  stream_window w p (n + m) = stream_window w p n ++ stream_window w (p + n) m.
Proof. intros w p n m; unfold stream_window; rewrite seq_app, map_app; reflexivity. Qed.

Lemma stream_window_env : forall w w' p n,
  rng_words w' = rng_words w -> stream_window w' p n = stream_window w p n.
Proof. intros w w' p n H; unfold stream_window; rewrite H; reflexivity. Qed.

(** One symbol: the words up to the first accepted one are consumed, and the
    symbol is that word's. *)
Lemma alphanumeric_sample_window : forall f w b w',
  alphanumeric_sample f w = Done b w' ->
  (rng_pos w < rng_pos w')%nat /\ same_env w w' /\
  filter alnum_accepts (stream_window w (rng_pos w) (rng_pos w' - rng_pos w))
    = [rng_words w (rng_pos w' - 1) mod 2 ^ 32] /\
  alnum_accepts (rng_words w (rng_pos w' - 1) mod 2 ^ 32) = true /\
  b = alnum_char (rng_words w (rng_pos w' - 1) mod 2 ^ 32).
Proof.
  induction f as [|f IH]; intros w b w' H; [discriminate|].
  cbn [alphanumeric_sample] in H; unfold bind, next_u32 in H.
  cbv beta zeta in H.
  destruct (Z.shiftr (rng_words w (rng_pos w) mod 2 ^ 32) (32 - 6)
              <? 26 + 26 + 10) eqn:E.
  - unfold ret in H; apply Done_inj in H; destruct H as [<- <-].
    cbn [advance_rng rng_pos].
    replace (S (rng_pos w) - rng_pos w)%nat with 1%nat by lia.
    replace (S (rng_pos w) - 1)%nat with (rng_pos w) by lia.
    unfold alnum_accepts, alnum_char; cbn [stream_window seq map filter].
    rewrite E; repeat split; lia.
  - destruct (IH _ _ _ H) as (Hlt & Henv & Hf & Ha & Hb).
    cbn [advance_rng rng_pos rng_words] in Hlt, Hf, Ha, Hb.
    replace (rng_pos w' - rng_pos w)%nat with (S (rng_pos w' - S (rng_pos w)))
      by lia.
    rewrite stream_window_cons; cbn [filter]; unfold alnum_accepts at 1.
    rewrite E.
    split; [lia|]; refine (conj _ (conj Hf (conj Ha Hb))).
    eapply same_env_trans; [apply same_env_advance|exact Henv].
Qed.

Lemma collect_alphanumeric_window : forall fuel n s0 w r w',
  collect_alphanumeric fuel n s0 w = Done r w' ->
  (rng_pos w <= rng_pos w')%nat /\ same_env w w' /\
  r = s0 ++ map alnum_char
             (filter alnum_accepts
                (stream_window w (rng_pos w) (rng_pos w' - rng_pos w))) /\
  ((0 < n)%nat -> alnum_accepts (rng_words w (rng_pos w' - 1) mod 2 ^ 32) = true).
Proof.
  intros fuel; induction n as [|n IH]; intros s0 w r w' H.
  - cbn in H; unfold ret in H; apply Done_inj in H; destruct H as [<- <-].
    rewrite Nat.sub_diag; cbn; rewrite app_nil_r.
    refine (conj (le_n _) (conj (same_env_refl _) (conj eq_refl _))); lia.
  - cbn [collect_alphanumeric] in H; unfold bind in H.
    destruct (alphanumeric_sample fuel w) as [b w1| |] eqn:Hs;
      try discriminate.
    destruct (alphanumeric_sample_spec _ _ _ _ Hs) as [Hab _].
    destruct (alphanumeric_sample_window _ _ _ _ Hs)
      as (Hlt & Henv1 & Hf & Ha & Hb).
    destruct (IH _ _ _ _ H) as (Hle & Henv2 & Hr & Hlast).
    destruct Henv1 as (_ & Hw1 & _).
    split; [lia|]; refine (conj (same_env_trans _ _ _ _ Henv2) (conj _ _)).
    + destruct (alphanumeric_sample_spec _ _ _ _ Hs) as [_ He]; exact He.
    + rewrite Hr, (stream_window_env w w1) by exact Hw1.
      replace (rng_pos w' - rng_pos w)%nat
        with ((rng_pos w1 - rng_pos w) + (rng_pos w' - rng_pos w1))%nat by lia.
      rewrite stream_window_app, filter_app, map_app, Hf.
      replace (rng_pos w + (rng_pos w1 - rng_pos w))%nat with (rng_pos w1)
        by lia.
      unfold push_char, char_from_u8.
      rewrite utf8_encode_ascii by (apply alphanumeric_byte_ascii; exact Hab).
      cbn [map]; rewrite <- Hb, <- app_assoc; reflexivity.
    + intros _; destruct n as [|n].
      * cbn in H; unfold ret in H; apply Done_inj in H; destruct H as [_ <-].
        exact Ha.
      * rewrite <- Hw1; apply Hlast; lia.
Qed.

Lemma shiftr_block : forall x i,
  Z.of_nat i * 2 ^ 26 <= x < (Z.of_nat i + 1) * 2 ^ 26 ->
  Z.shiftr x (32 - 6) = Z.of_nat i.
Proof.
  intros x i Hx; rewrite Z.shiftr_div_pow2 by lia; cbn [Z.sub].
  symmetry; apply Z.div_unique with (x - Z.of_nat i * 2 ^ 26); lia.
Qed.

(** *** The integer generator *)

Lemma random_int_run : forall t w, int_wf t ->
  exists v w', random_int t w = Done v w' /\ in_int t v /\ same_env w w' /\
    rng_pos w' = (rng_pos w + Z.to_nat (Z.max 1 (bits t / 32)))%nat.
Proof.
  intros t w Hwf; unfold random_int, bind, ret.
  destruct (next_words_spec (Z.to_nat (Z.max 1 (bits t / 32))) w)
    as (x & w' & Hrun & _).
  rewrite Hrun; destruct (next_words_env _ _ _ _ Hrun) as [He Hp].
  exists (wrap t x), w'; refine (conj eq_refl (conj _ (conj He Hp))).
  apply wrap_in_int; exact Hwf.
Qed.


(** *** Properties of the code beyond the claims *)

(** X1: for an integer type, [generate] returns a value of the type, reads
    exactly [max 1 (bits / 32)] words of the generator (one for the types of
    at most 32 bits) and changes nothing else. *)
Theorem generate_int_draw : forall t w, int_wf t ->
  exists v w', generate (int_standard t) w = Done v w' /\ in_int t v /\
    same_env w w' /\
    rng_pos w' = (rng_pos w + Z.to_nat (Z.max 1 (bits t / 32)))%nat.
Proof.
  intros t w Hwf; cbn [generate int_standard standard_sample].
  apply random_int_run; exact Hwf.
Qed.

(** X2: for each of the ten fixed-width integer types, every value of the
    type is returned by [generate] for some output of the generator, from
    any directory, log and stream position. *)
Theorem generate_int_surjective : forall t v w,
  In t rust_int_types -> in_int t v ->
  exists words w',
    generate (int_standard t) (mkWorld (cwd w) words (rng_pos w) (fs_log w) (cwd_search w))
      = Done v w'.
Proof.
  intros t v w Ht Hv.
  destruct (rust_int_types_wf t Ht) as [Hwf Hbits].
  pose proof (pow_bits_split t Hwf); pose proof (pow_bits_pos t Hwf).
  set (u := v mod 2 ^ bits t).
  assert (Hu : 0 <= u < 2 ^ bits t) by (apply Z.mod_pos_bound; lia).
  set (k := Z.to_nat (Z.max 1 (bits t / 32))).
  set (words := fun n : nat =>
    (u / 2 ^ (32 * (Z.of_nat n - Z.of_nat (rng_pos w)))) mod 2 ^ 32).
  destruct (next_words_digits k (mkWorld (cwd w) words (rng_pos w) (fs_log w) (cwd_search w)) u)
    as (w' & Hrun).
  { intros j; cbn [rng_words rng_pos]; unfold words.
    rewrite Z.mod_mod by lia.
    replace (Z.of_nat (rng_pos w + j) - Z.of_nat (rng_pos w)) with (Z.of_nat j)
      by lia; reflexivity. }
  exists words, w'; cbn [generate int_standard standard_sample].
  unfold random_int, bind, ret; fold k; rewrite Hrun; f_equal.
  assert (Hk : 2 ^ bits t <= 2 ^ (32 * Z.of_nat k)).
  { apply Z.pow_le_mono_r; [lia|]; unfold k; rewrite Z2Nat.id by lia; lia. }
  rewrite (Z.mod_small u) by lia.
  apply eq_trans with (wrap t v).
  - apply wrap_congr; unfold u; apply Z.mod_mod; lia.
  - apply wrap_id; assumption.
Qed.

(** X3: on the full range [MIN..=MAX] of an integer type, [generate_range]
    reads the same words and returns the same value as [generate]. *)
Theorem generate_range_full_int : forall t w, int_wf t ->
  generate_range (int_sampler t) (RangeInclusive (int_min t) (int_max t)) w
    = generate (int_standard t) w.
Proof.
  intros t w Hwf.
  pose proof (int_span t Hwf) as Hspan.
  pose proof (pow_bits_split t Hwf); pose proof (pow_bits_pos t Hwf).
  assert (Hle : int_min t <= int_max t) by lia.
  rewrite generate_range_nonempty
    by (cbn; rewrite (proj2 (Z.leb_le _ _) Hle); reflexivity).
  cbn [range_sample_single sample_single_inclusive int_sampler].
  unfold int_sample_single_inclusive; cbv zeta.
  rewrite (proj2 (Z.leb_le _ _) Hle); cbn [negb].
  rewrite range_value by (try exact Hwf; unfold in_int; lia).
  replace (int_max t - int_min t + 1) with (2 ^ bits t) by lia.
  rewrite Z.mod_same by lia; cbn [Z.eqb].
  unfold bind, ret; cbn [generate int_standard standard_sample].
  destruct (random_int t w); reflexivity.
Qed.

(** X4: [generate_bytes(length)] reads exactly [length] words of the
    generator, in order, and returns the low 8 bits of each; nothing else
    changes. *)
Theorem generate_bytes_output : forall len w,
  generate_bytes len w =
    Done (map (fun x => Z.land x 255) (stream_window w (rng_pos w) len))
         (mkWorld (cwd w) (rng_words w) (rng_pos w + len) (fs_log w)
            (cwd_search w)).
Proof.
  unfold generate_bytes; induction len as [|len IH]; intros w.
  - destruct w; cbn; rewrite Nat.add_0_r; reflexivity.
  - cbn [collect_random_u8]; unfold bind, random_u8, bind, next_u32, ret.
    cbv beta; rewrite IH; cbn [advance_rng rng_pos rng_words cwd fs_log].
    rewrite stream_window_cons, Nat.add_succ_r; reflexivity.
Qed.

(** X5: the 62 symbols of [Alphanumeric] are distinct, and one draw maps
    the words of the block [[i * 2^26, (i + 1) * 2^26)] to the [i]-th
    symbol and skips the words from [62 * 2^26] on: each symbol has the
    same number of words. *)
Theorem alphanumeric_word_blocks : NoDup GEN_ASCII_STR_CHARSET /\
  forall f w,
  (62 * 2 ^ 26 <= rng_words w (rng_pos w) mod 2 ^ 32 ->
   alphanumeric_sample (S f) w = alphanumeric_sample f (advance_rng w)) /\
  (forall i, (i < 62)%nat ->
   Z.of_nat i * 2 ^ 26 <= rng_words w (rng_pos w) mod 2 ^ 32
     < (Z.of_nat i + 1) * 2 ^ 26 ->
   alphanumeric_sample (S f) w
     = Done (nth i GEN_ASCII_STR_CHARSET 0) (advance_rng w)).
Proof.
  split; [exact charset_nodup|]; intros f w.
  cbn [alphanumeric_sample]; unfold bind, next_u32; cbv beta zeta.
  set (x := rng_words w (rng_pos w) mod 2 ^ 32).
  split.
  - intros Hx.
    replace (Z.shiftr x (32 - 6) <? 26 + 26 + 10) with false; [reflexivity|].
    symmetry; apply Z.ltb_ge; rewrite Z.shiftr_div_pow2 by lia.
    apply Z.div_le_lower_bound; lia.
  - intros i Hi Hx; rewrite (shiftr_block x i Hx).
    replace (Z.of_nat i <? 26 + 26 + 10) with true
      by (symmetry; apply Z.ltb_lt; lia).
    unfold ret; rewrite Nat2Z.id; reflexivity.
Qed.

(** X6: the string of [generate_alphanumeric(length)] is the sequence of
    the symbols of the accepted words among the words it reads, rejected
    words being skipped; it reads up to its [length]-th accepted word and
    no further. *)
Theorem generate_alphanumeric_accepted_words : forall fuel len w s w',
  generate_alphanumeric fuel len w = Done s w' ->
  s = map alnum_char
        (filter alnum_accepts
           (stream_window w (rng_pos w) (rng_pos w' - rng_pos w))) /\
  List.length (filter alnum_accepts
                 (stream_window w (rng_pos w) (rng_pos w' - rng_pos w))) = len /\
  ((0 < len)%nat ->
   alnum_accepts (rng_words w (rng_pos w' - 1) mod 2 ^ 32) = true).
Proof.
  intros fuel len w s w' H; unfold generate_alphanumeric in H.
  destruct (collect_alphanumeric_window _ _ _ _ _ _ H) as (_ & _ & Hs & Hl).
  destruct (collect_alphanumeric_spec _ _ _ _ _ _ H) as (bs & Hbs & Hlen & _).
  cbn [app] in Hs, Hbs.
  refine (conj Hs (conj _ Hl)).
  rewrite <- Hlen, <- Hbs, Hs, length_map; reflexivity.
Qed.


(** X10: on a non-empty integer range [a..=b] that is not the whole type,
    [generate_range] reads one draw of the sample type [$sample_ty], or two
    when Canon's method needs its second draw, and no other words. *)
Theorem generate_range_int_draws : forall t a b w v w',
  int_wf t -> in_int t a -> in_int t b -> a <= b -> b - a + 1 < 2 ^ bits t ->
  generate_range (int_sampler t) (RangeInclusive a b) w = Done v w' ->
  let m := Z.to_nat (sample_bits t / 32) in
  rng_pos w' = (rng_pos w + m)%nat \/ rng_pos w' = (rng_pos w + 2 * m)%nat.
Proof.
  intros t a b w v w' Hwf Ha Hb Hab Hpart H m.
  rewrite generate_range_nonempty in H
    by (cbn; rewrite (proj2 (Z.leb_le _ _) Hab); reflexivity).
  cbn [range_sample_single sample_single_inclusive int_sampler] in H.
  unfold int_sample_single_inclusive in H; cbv zeta in H.
  rewrite (proj2 (Z.leb_le _ _) Hab) in H; cbn [negb] in H.
  rewrite range_value in H by assumption.
  rewrite Z.mod_small in H by lia.
  replace (b - a + 1 =? 0) with false in H
    by (symmetry; apply Z.eqb_neq; lia).
  unfold random_sample_ty, bind, ret in H; fold m in H.
  destruct (next_words m w) as [x w1| |] eqn:H1; try discriminate.
  destruct (next_words_env _ _ _ _ H1) as [_ Hp1].
  destruct (_ <? _).
  - destruct (next_words m w1) as [y w2| |] eqn:H2; try discriminate.
    destruct (next_words_env _ _ _ _ H2) as [_ Hp2].
    apply Done_inj in H; destruct H as [_ <-]; right; lia.
  - apply Done_inj in H; destruct H as [_ <-]; left; exact Hp1.
Qed.

(** ** Witnesses *)

Lemma generate_badfile_result_witness :
  chars_count [65] = 1%nat /\
  metadata_fails (log_op (OpMetadata [65]) (advance_rng zero_world)) [65] = true.
Proof.
  destruct (generate_badfile_result 1 1 zero_world [65]
              (log_op (OpMetadata [65]) (advance_rng zero_world))
              ltac:(reflexivity)) as (_ & Hc & _ & _ & Hf & _).
  split; assumption.
Defined.

Lemma generate_badfile_zero_length_witness :
  generate_badfile 3 0 zero_world
    = Panic "cannot sample empty file name" zero_world /\
  (0 = 0)%nat.
Proof.
  destruct (generate_badfile_zero_length 3 0 zero_world) as [Hz Hp].
  split; [exact (Hz eq_refl)|].
  exact (Hp _ _ (Hz eq_refl)).
Defined.

Lemma generate_bytes_alphanumeric_length_witness :
  chars_count [65; 65; 65] = 3%nat.
Proof.
  destruct (generate_bytes_alphanumeric_length 3 zero_world) as (_ & Hs & _).
  exact (Hs 1%nat [65; 65; 65] (advance_rng (advance_rng (advance_rng zero_world)))
            ltac:(reflexivity)).
Defined.

Lemma generate_alphanumeric_alphabet_witness :
  Forall (fun b => is_ascii_alphanumeric b = true) [65; 65].
Proof.
  exact (proj1 (generate_alphanumeric_alphabet 1 2 zero_world [65; 65]
                  (advance_rng (advance_rng zero_world)) ltac:(reflexivity))).
Defined.

Lemma generated_names_ascii_witness :
  str_len [65; 65] = 2%nat /\ chars_count [65] = 1%nat.
Proof.
  destruct (generated_names_ascii 1 2 zero_world [65; 65]
              (advance_rng (advance_rng zero_world))) as [Ha _].
  destruct (generated_names_ascii 1 1 zero_world [65]
              (log_op (OpMetadata [65]) (advance_rng zero_world))) as [_ Hb].
  destruct (Ha ltac:(reflexivity)) as (_ & Hl & _).
  destruct (Hb ltac:(reflexivity)) as (_ & _ & Hc).
  split; assumption.
Defined.

Lemma generate_badfile_frame_witness :
  cwd (log_op (OpMetadata [65]) (advance_rng zero_world)) = cwd zero_world /\
  generate_badfile 1 0 zero_world = Panic "cannot sample empty file name" zero_world.
Proof.
  destruct (generate_badfile_frame 1 1 zero_world) as [Hd _].
  destruct (Hd [65] (log_op (OpMetadata [65]) (advance_rng zero_world))
              ltac:(reflexivity)) as [Hc _].
  destruct (generate_badfile_frame 1 0 zero_world) as [_ Hp].
  split; [exact Hc|].
  pose proof (Hp _ _ (eq_refl : generate_badfile 1 0 zero_world
                                  = Panic "cannot sample empty file name" zero_world)) as Hw.
  reflexivity.
Defined.

Lemma generate_int_draw_witness :
  exists v w', generate (int_standard u8) zero_world = Done v w' /\
    in_int u8 v.
Proof.
  destruct (generate_int_draw u8 zero_world ltac:(unfold int_wf; cbn; lia))
    as (v & w' & Hrun & Hv & _).
  exists v, w'; split; assumption.
Defined.

Lemma generate_int_surjective_witness :
  exists words w', generate (int_standard i8)
    (mkWorld (cwd zero_world) words (rng_pos zero_world) (fs_log zero_world)
       (cwd_search zero_world))
    = Done (-128) w'.
Proof.
  exact (generate_int_surjective i8 (-128) zero_world
           ltac:(cbn; tauto) ltac:(unfold in_int; cbn; lia)).
Defined.

Lemma generate_range_full_int_witness :
  generate_range (int_sampler u16) (RangeInclusive 0 65535) ones_world
    = generate (int_standard u16) ones_world.
Proof.
  exact (generate_range_full_int u16 ones_world ltac:(unfold int_wf; cbn; lia)).
Defined.

Lemma alphanumeric_word_blocks_witness :
  alphanumeric_sample 1 zero_world
    = Done (nth 0 GEN_ASCII_STR_CHARSET 0) (advance_rng zero_world) /\
  alphanumeric_sample 1 ones_world = alphanumeric_sample 0 (advance_rng ones_world).
Proof.
  destruct alphanumeric_word_blocks as [_ H]; split.
  - apply (proj2 (H 0%nat zero_world) 0%nat); cbn; lia.
  - apply (proj1 (H 0%nat ones_world)); cbn; lia.
Defined.

Lemma generate_alphanumeric_accepted_words_witness :
  [65] = map alnum_char (filter alnum_accepts (stream_window zero_world 0 1)).
Proof.
  exact (proj1 (generate_alphanumeric_accepted_words 1 1 zero_world [65]
                  (advance_rng zero_world) ltac:(reflexivity))).
Defined.

Lemma generate_range_int_draws_witness :
  rng_pos (advance_rng zero_world) = (0 + 1)%nat \/
  rng_pos (advance_rng zero_world) = (0 + 2 * 1)%nat.
Proof.
  exact (generate_range_int_draws u8 0 9 zero_world 0 (advance_rng zero_world)
           ltac:(unfold int_wf; cbn; lia) ltac:(unfold in_int; cbn; lia)
           ltac:(unfold in_int; cbn; lia) ltac:(lia) ltac:(cbn; lia)
           ltac:(vm_compute; reflexivity)).
Defined.
